(** * whitelists-research-v2: the domain fingerprinting scanner

    A shallow embedding of [src/whitelists-research-v2/main.py] and the
    properties of its normalizer, CNAME walker, probers, signature engine,
    orchestrator and aggregator.

    Conventions of the embedding.
    - A Python [str] is a Rocq [string] holding the UTF-8 bytes of the text, so
      [s.encode("utf-8")] is the list of its bytes.  The [str] methods below
      ([lower], [strip], ...) are exact on ASCII text; bytes from 128 up are
      passed through unchanged.
    - A Python [int] is a [Z]; [None] is [None] of an [option].
    - An exception is a value of [exn]; code that may raise lives in the
      error monad [result], and [try: ... except Exception:] is [try_except].
    - The network, the file system and the clock are oracles collected in
      the record [World]: the code is a function of what they answer. *)

From Stdlib Require Import ZArith NArith List String Ascii Bool Lia.
From Stdlib Require Import DecimalString Sorting.Permutation Sorting.Sorted.
From Stdlib Require Import Floats.PrimFloat.
From stdpp Require Import base gmap sets list strings sorting.

Import ListNotations.
Local Open Scope string_scope.
Local Open Scope list_scope.

(* ===================================================================== *)
(** ** Python runtime: exceptions and the error monad                     *)
(* ===================================================================== *)

Module Py.

(** The exception classes the program meets.  All of them derive from
    [Exception], so [except Exception] catches every value of [exn]; the
    signals that do not (KeyboardInterrupt, CancelledError) are outside the
    model, and the exit of the process is modelled apart, in [main]. *)
Inductive exc_class : Type :=
  | NoResolverConfiguration   (* dns.resolver.NoResolverConfiguration *)
  | NoAnswer            (* dns.resolver.NoAnswer *)
  | NXDOMAIN            (* dns.resolver.NXDOMAIN *)
  | NoNameservers       (* dns.resolver.NoNameservers *)
  | DnsTimeout          (* dns.exception.Timeout *)
  | ValueError
  | IndexError
  | OSError
  | TimeoutError        (* asyncio.TimeoutError, socket.timeout *)
  | ClientError         (* aiohttp.ClientError and its subclasses *)
  | SSLError
  | RuntimeError.

(** An exception object: its class and [str(e)]. *)
Record exn : Type := Raise_ { exc_cls : exc_class; exc_msg : string }.

(** [str(e)] *)
Definition str_exn (e : exn) : string := exc_msg e.

Definition result (A : Type) : Type := (exn + A)%type.

Definition ret {A} (a : A) : result A := inr a.
Definition raise {A} (e : exn) : result A := inl e.

Definition bind {A B} (c : result A) (k : A -> result B) : result B :=
  match c with
  | inl e => inl e
  | inr a => k a
  end.

(** [try: c  except Exception as e: handler e] *)
Definition try_except {A} (c : result A) (handler : exn -> result A) : result A :=
  match c with
  | inl e => handler e
  | inr a => inr a
  end.

End Py.
Import Py.

(** The monad notation [x ← c; k] of stdpp, at [result]. *)
#[global] Instance result_ret : MRet result := @ret.
#[global] Instance result_bind : MBind result := fun A B k c => bind c k.

(* ===================================================================== *)
(** ** Python [str] methods                                               *)
(* ===================================================================== *)

Module Str.

Definition lower_ascii (c : ascii) : ascii :=
  let n := nat_of_ascii c in
  if (65 <=? n)%nat && (n <=? 90)%nat then ascii_of_nat (n + 32) else c.

(** [s.lower()] on ASCII text: the letters A to Z are folded and every
    other byte is left as it is, those of the characters past ASCII (which
    Python folds where they are letters) included.  What is stated below
    about lowercase results and about agreement up to case is stated for
    ASCII text. *)
Fixpoint lower (s : string) : string :=
  match s with
  | EmptyString => EmptyString
  | String c r => String (lower_ascii c) (lower r)
  end.

(** [s or ""] on a [str]: the empty string is the only falsy one. *)
Definition or_empty (s : string) : string :=
  if decide (s = "") then "" else s.

(** [bool(s)] *)
Definition truthy (s : string) : bool :=
  match s with EmptyString => false | _ => true end.

(** [sep.join(parts)] *)
Fixpoint join (sep : string) (parts : list string) : string :=
  match parts with
  | [] => ""
  | [p] => p
  | p :: rest => p +:+ sep +:+ join sep rest
  end.

(** [s[:n]] *)
Definition take (n : nat) (s : string) : string := String.substring 0 n s.

(** [str(i)] for an [int] *)
Definition of_int (i : Z) : string := NilZero.string_of_int (Z.to_int i).

(** [s.encode("utf-8")] *)
Definition encode (s : string) : list N :=
  List.map N_of_ascii (list_ascii_of_string s).

End Str.

(* ===================================================================== *)
(** ** hashlib.sha256 (FIPS 180-4), on 32-bit words held in [N]           *)
(* ===================================================================== *)

Module SHA256.
Local Open Scope N_scope.

Definition mask32 : N := 0xFFFFFFFF.
Definition w32 (x : N) : N := N.land x mask32.
Definition add32 (x y : N) : N := w32 (x + y).
Definition not32 (x : N) : N := N.lxor x mask32.
Definition rotr (n x : N) : N := N.lor (N.shiftr x n) (w32 (N.shiftl x (32 - n))).

Definition Ch (x y z : N) : N := N.lxor (N.land x y) (N.land (not32 x) z).
Definition Maj (x y z : N) : N := N.lxor (N.lxor (N.land x y) (N.land x z)) (N.land y z).
Definition Sigma0 (x : N) : N := N.lxor (N.lxor (rotr 2 x) (rotr 13 x)) (rotr 22 x).
Definition Sigma1 (x : N) : N := N.lxor (N.lxor (rotr 6 x) (rotr 11 x)) (rotr 25 x).
Definition sigma0 (x : N) : N := N.lxor (N.lxor (rotr 7 x) (rotr 18 x)) (N.shiftr x 3).
Definition sigma1 (x : N) : N := N.lxor (N.lxor (rotr 17 x) (rotr 19 x)) (N.shiftr x 10).

(** The first 64 primes. *)
Definition primes : list N :=
  [ 2; 3; 5; 7; 11; 13; 17; 19; 23; 29; 31; 37; 41; 43; 47; 53; 59; 61; 67; 71; 73; 79;
    83; 89; 97; 101; 103; 107; 109; 113; 127; 131; 137; 139; 149; 151; 157; 163; 167;
    173; 179; 181; 191; 193; 197; 199; 211; 223; 227; 229; 233; 239; 241; 251; 257; 263;
    269; 271; 277; 281; 283; 293; 307; 311 ].

(** The integer cube root, found bit by bit from bit [bit - 1] down. *)
Fixpoint cube_root (bit : nat) (x r : N) : N :=
  match bit with
  | O => r
  | S b =>
      let c := N.lor r (N.shiftl 1 (N.of_nat b)) in
      if c * c * c <=? x then cube_root b x c else cube_root b x r
  end.

(** The first 32 bits of the fractional part of a cube root, of a square
    root. *)
Definition frac_cbrt (p : N) : N := w32 (cube_root 36 (N.shiftl p 96) 0).
Definition frac_sqrt (p : N) : N := w32 (N.sqrt (N.shiftl p 64)).

(** The round constants: the cube roots of the first 64 primes. *)
Definition K : list N := Eval vm_compute in List.map frac_cbrt primes.

(** The eight working variables, also the running hash value. *)
Record state : Type := St { sa : N; sb : N; sc : N; sd : N; se : N; sf : N; sg : N; sh : N }.

(** The initial hash value: the square roots of the first 8 primes. *)
Definition H0 : state :=
  Eval vm_compute in
    St (frac_sqrt 2) (frac_sqrt 3) (frac_sqrt 5) (frac_sqrt 7)
       (frac_sqrt 11) (frac_sqrt 13) (frac_sqrt 17) (frac_sqrt 19).

(** Padding: the byte 0x80, zero bytes up to 56 mod 64, the bit length on
    eight big-endian bytes. *)
Definition be_bytes (count : nat) (x : N) : list N :=
  List.map (fun i => N.land (N.shiftr x (8 * N.of_nat i)) 0xFF) (List.rev (List.seq 0 count)).

Definition pad (msg : list N) : list N :=
  let len := List.length msg in
  let zeros := ((64 - ((len + 9) mod 64)) mod 64)%nat in
  msg ++ [0x80] ++ List.repeat 0 zeros ++ be_bytes 8 (8 * N.of_nat len).

Fixpoint be_word (bs : list N) : N :=
  match bs with
  | [] => 0
  | b :: r => N.lor (N.shiftl b (8 * N.of_nat (List.length r))) (be_word r)
  end.

(** Cut a byte list into big-endian words of four bytes. *)
Fixpoint words (fuel : nat) (bs : list N) : list N :=
  match fuel, bs with
  | S fuel', b0 :: b1 :: b2 :: b3 :: r => be_word [b0; b1; b2; b3] :: words fuel' r
  | _, _ => []
  end.

(** Cut a word list into blocks of sixteen words. *)
Fixpoint blocks (fuel : nat) (ws : list N) : list (list N) :=
  match fuel, ws with
  | S fuel', _ :: _ => List.firstn 16 ws :: blocks fuel' (List.skipn 16 ws)
  | _, _ => []
  end.

(** The message schedule, kept newest word first while it grows. *)
Fixpoint schedule_rev (count : nat) (rev_w : list N) : list N :=
  match count with
  | O => rev_w
  | S count' =>
      let at_ (i : nat) := List.nth i rev_w 0 in
      let wt := add32 (add32 (sigma1 (at_ 1%nat)) (at_ 6%nat))
                      (add32 (sigma0 (at_ 14%nat)) (at_ 15%nat)) in
      schedule_rev count' (wt :: rev_w)
  end.

Definition schedule (block : list N) : list N :=
  List.rev (schedule_rev 48 (List.rev block)).

Definition round (s : state) (kw : N * N) : state :=
  let t1 := add32 (add32 (add32 (sh s) (Sigma1 (se s))) (Ch (se s) (sf s) (sg s)))
                  (add32 (fst kw) (snd kw)) in
  let t2 := add32 (Sigma0 (sa s)) (Maj (sa s) (sb s) (sc s)) in
  St (add32 t1 t2) (sa s) (sb s) (sc s) (add32 (sd s) t1) (se s) (sf s) (sg s).

Definition compress (h : state) (block : list N) : state :=
  let s := List.fold_left round (List.combine K (schedule block)) h in
  St (add32 (sa h) (sa s)) (add32 (sb h) (sb s)) (add32 (sc h) (sc s)) (add32 (sd h) (sd s))
     (add32 (se h) (se s)) (add32 (sf h) (sf s)) (add32 (sg h) (sg s)) (add32 (sh h) (sh s)).

Definition digest (msg : list N) : state :=
  let p := pad msg in
  List.fold_left compress (blocks (List.length p) (words (List.length p) p)) H0.

Definition hex_digit (x : N) : ascii :=
  let d := N.land x 0xF in
  if d <? 10 then ascii_of_N (48 + d) else ascii_of_N (87 + d).

Definition hex8 (x : N) (rest : string) : string :=
  String (hex_digit (N.shiftr x 28)) (String (hex_digit (N.shiftr x 24))
  (String (hex_digit (N.shiftr x 20)) (String (hex_digit (N.shiftr x 16))
  (String (hex_digit (N.shiftr x 12)) (String (hex_digit (N.shiftr x 8))
  (String (hex_digit (N.shiftr x 4)) (String (hex_digit x) rest))))))).

(** [hashlib.sha256(msg).hexdigest()] *)
Definition hexdigest (msg : list N) : string :=
  let s := digest msg in
  hex8 (sa s) (hex8 (sb s) (hex8 (sc s) (hex8 (sd s)
  (hex8 (se s) (hex8 (sf s) (hex8 (sg s) (hex8 (sh s) ""))))))).

End SHA256.

(** [_sha256_hex], main.py:67 *)
Definition _sha256_hex (s : string) : string := SHA256.hexdigest (Str.encode s).

(* ===================================================================== *)
(** ** Data model, main.py:71-123                                         *)
(* ===================================================================== *)

Record HTTPFingerprint : Type := MkHTTP {
  http_ok : bool;
  http_status : option Z;
  http_final_url : string;
  http_final_host : string;
  http_content_type : string;
  http_server : string;
  http_via : string;
  http_cache : string;
  http_cf_ray : string;
  http_cf_cache_status : string;
  http_x_cache : string;
  http_x_served_by : string;
  http_x_amz_cf_pop : string;
  http_x_amz_cf_id : string;
  http_x_vercel_id : string;
  http_x_nf_request_id : string;
  http_error : string
}.

(** [HTTPFingerprint()]: every field at its default. *)
Definition HTTPFingerprint_new : HTTPFingerprint :=
  MkHTTP false None "" "" "" "" "" "" "" "" "" "" "" "" "" "" "".

Record TLSFingerprint : Type := MkTLS {
  tls_ok : bool;
  tls_alpn : string;
  tls_sni : string;
  tls_peer_ip : string;
  tls_subject_cn : string;
  tls_issuer_cn : string;
  tls_san : list string;
  tls_not_before : string;
  tls_not_after : string;
  tls_error : string
}.

(** [TLSFingerprint(sni=domain)] *)
Definition TLSFingerprint_new (sni : string) : TLSFingerprint :=
  MkTLS false "" sni "" "" "" [] "" "" "".

Record WebSocketProbe : Type := MkWS {
  ws_url : string;
  ws_ok : bool;
  ws_negotiated_subprotocol : string;
  ws_error : string;
  ws_ms : float
}.

(** [WebSocketProbe(url=url)] *)
Definition WebSocketProbe_new (url : string) : WebSocketProbe :=
  MkWS url false "" "" 0%float.

Record DomainScanResult : Type := MkRes {
  domain : string;
  cname_chain : list string;
  http : HTTPFingerprint;
  tls : TLSFingerprint;
  websockets : list WebSocketProbe;
  signature : string;
  errors : list string
}.

(** [DomainScanResult(domain=domain)] *)
Definition DomainScanResult_new (d : string) : DomainScanResult :=
  MkRes d [] HTTPFingerprint_new (TLSFingerprint_new "") [] "" [].

(* ===================================================================== *)
(** ** Signature engine, main.py:291-305                                  *)
(* ===================================================================== *)

(** The local list [parts] of [compute_signature]. *)
Definition signature_parts (cname_chain : list string)
    (http : HTTPFingerprint) (tls : TLSFingerprint) : list string :=
  [ "cname=" +:+ match last cname_chain with
                 | Some c => Str.lower c
                 | None => ""
                 end;
    "final_host=" +:+ Str.or_empty (http_final_host http);
    "status=" +:+ match http_status http with
                  | Some st => Str.of_int st
                  | None => ""
                  end;
    "content_type=" +:+ Str.lower (Str.or_empty (http_content_type http));
    "server=" +:+ Str.lower (Str.or_empty (http_server http));
    "via=" +:+ Str.lower (Str.or_empty (http_via http));
    "cache_control=" +:+ Str.lower (Str.or_empty (http_cache http));
    "x_cache=" +:+ Str.lower (Str.or_empty (http_x_cache http));
    "x_served_by=" +:+ Str.lower (Str.or_empty (http_x_served_by http));
    "issuer=" +:+ Str.lower (Str.or_empty (tls_issuer_cn tls));
    "alpn=" +:+ Str.lower (Str.or_empty (tls_alpn tls)) ].

Definition compute_signature (domain : string) (cname_chain : list string)
    (http : HTTPFingerprint) (tls : TLSFingerprint) : string :=
  Str.take 16 (_sha256_hex (Str.join "|" (signature_parts cname_chain http tls))).



(* ===================================================================== *)
(** ** More [str] methods: stripping                                      *)
(* ===================================================================== *)

Module Strip.

(** [s.lstrip(chars)], the characters to remove given by [p]. *)
Fixpoint lstrip (p : ascii -> bool) (s : string) : string :=
  match s with
  | EmptyString => EmptyString
  | String c r => if p c then lstrip p r else s
  end.

(** [s.rstrip(chars)] *)
Fixpoint rstrip (p : ascii -> bool) (s : string) : string :=
  match s with
  | EmptyString => EmptyString
  | String c r =>
      match rstrip p r with
      | EmptyString => if p c then EmptyString else String c EmptyString
      | r' => String c r'
      end
  end.

(** [s.strip(chars)] *)
Definition strip (p : ascii -> bool) (s : string) : string := rstrip p (lstrip p s).

Definition is_dot (c : ascii) : bool := bool_decide (c = "."%char).

(** [str.isspace] on ASCII: tab to carriage return, the four separators
    0x1c-0x1f, and the space.  The white space past ASCII (U+0085, U+00A0,
    U+2003 and the like), which [str.strip] removes as well, is not counted:
    what is stated below about the outcome of the normalizer on arbitrary
    lines is stated for lines of ASCII text. *)
Definition is_space (c : ascii) : bool :=
  let n := nat_of_ascii c in
  ((9 <=? n)%nat && (n <=? 13)%nat) || ((28 <=? n)%nat && (n <=? 32)%nat).

End Strip.

(* ===================================================================== *)
(** ** The outside world: DNS, HTTP, TLS, WebSocket, clock                *)
(* ===================================================================== *)

(** [ans = r.resolve(name, "CNAME")]; the field is [str(ans[0].target)],
    which may itself raise. *)
Record Answer : Type := { ans_target0 : result string }.

(** An [aiohttp.ClientResponse].  [resp_headers] is the case-insensitive
    multidict, keyed here by the lowercase header name; [resp_content_read n]
    is [await resp.content.read(n)]. *)
Record Response : Type := {
  resp_status : Z;
  resp_url : string;
  resp_url_host : option string;
  resp_headers : gmap string string;
  resp_content_read : nat -> result unit
}.

(** The dictionary of [SSLSocket.getpeercert()]: subject and issuer are
    tuples of relative distinguished names, each a tuple of pairs. *)
Record Cert : Type := {
  cert_subject : list (list (string * string));
  cert_issuer : list (list (string * string));
  cert_notBefore : option string;
  cert_notAfter : option string;
  cert_subjectAltName : list (string * string)
}.

Record TLSSocket : Type := {
  selected_alpn_protocol : option string;
  getpeercert : Cert
}.

(** The shared [aiohttp.ClientSession]: its default headers. *)
Record Session : Type := { session_user_agent : string }.

Record World : Type := {
  (** [open(path, "r")] and the lines the file yields *)
  fs_read : string -> result (list string);
  (** [open(path, "w")] and the writes of the lines given *)
  fs_write : string -> list string -> result unit;
  (** [dns.resolver.Resolver()], which reads the resolver configuration of
      the system and raises when there is none *)
  new_resolver : result unit;
  (** [r.resolve(name, "CNAME")] under the timeout set on [r] *)
  dns_resolve : float -> string -> result Answer;
  (** [session.get(url, allow_redirects=True, timeout=...)], up to the
      response headers *)
  session_get : Session -> string -> float -> result Response;
  (** [loop.getaddrinfo(domain, 443)]: the addresses [infos[i][4][0]] *)
  getaddrinfo : string -> Z -> result (list string);
  (** [raw_sock = socket.socket(...); raw_sock.settimeout(t);
      raw_sock.connect((ip, 443))] *)
  socket_connect : string -> Z -> float -> result unit;
  (** [ctx.wrap_socket(raw_sock, server_hostname=domain)] *)
  wrap_socket : string -> string -> result TLSSocket;
  (** [session.ws_connect(url, ...)]: the negotiated [ws.protocol] *)
  ws_connect : Session -> string -> float -> result (option string);
  (** the two readings of [loop.time()] around the handshake of a URL *)
  loop_time : string -> float * float
}.

(* ===================================================================== *)
(** ** DNS chain resolver, main.py:126-157                                *)
(* ===================================================================== *)

Definition rstrip_dot : string -> string := Strip.rstrip Strip.is_dot.

(** The classes named by the first [except] clause of the loop. *)
Definition dns_listed (e : exn) : bool :=
  match exc_cls e with
  | NoAnswer | NXDOMAIN | NoNameservers | DnsTimeout => true
  | _ => false
  end.

(** The [for _ in range(10)] loop of [_do], [n] iterations left, on the
    loop state [chain], [cur], [seen]; a [break] returns the chain. *)
Fixpoint _do_loop (w : World) (timeout_s : float) (n : nat)
    (chain : list string) (cur : string) (seen : gset string)
    : result (list string) :=
  match n with
  | O => mret chain
  | S n' =>
      if decide (cur ∈ seen) then mret chain
      else
        let seen := seen ∪ {[cur]} in
        match dns_resolve w timeout_s cur with
        | inl e =>
            if dns_listed e then mret chain   (* except (NoAnswer, ...): break *)
            else mret chain                   (* except Exception: break *)
        | inr ans =>
            match ans_target0 ans with
            | inl _ => mret chain             (* except Exception: break *)
            | inr t =>
                let target := rstrip_dot t in
                _do_loop w timeout_s n' (chain ++ [target]) target seen
            end
        end
  end.

Definition _do (w : World) (domain : string) (timeout_s : float) : result (list string) :=
  _ ← new_resolver w;
  _do_loop w timeout_s 10 [] (rstrip_dot domain) ∅.

(** [await asyncio.to_thread(_do)] hands back what [_do] returns. *)
Definition resolve_cname_chain (w : World) (domain : string) (timeout_s : float)
    : result (list string) :=
  _do w domain timeout_s.

(* ===================================================================== *)
(** ** HTTP prober, main.py:160-197                                       *)
(* ===================================================================== *)

(** [resp.headers.get(key, "")] *)
Definition headers_get (headers : gmap string string) (key : string) : string :=
  default "" (headers !! key).

(** [fp.error = str(e)] on an otherwise untouched fingerprint. *)
Definition http_set_error (fp : HTTPFingerprint) (msg : string) : HTTPFingerprint :=
  MkHTTP (http_ok fp) (http_status fp) (http_final_url fp) (http_final_host fp)
    (http_content_type fp) (http_server fp) (http_via fp) (http_cache fp)
    (http_cf_ray fp) (http_cf_cache_status fp) (http_x_cache fp) (http_x_served_by fp)
    (http_x_amz_cf_pop fp) (http_x_amz_cf_id fp) (http_x_vercel_id fp)
    (http_x_nf_request_id fp) msg.

(** The assignments of the [async with] body from a response in hand. *)
Definition http_capture (fp : HTTPFingerprint) (resp : Response) : HTTPFingerprint :=
  let h := resp_headers resp in
  MkHTTP true (Some (resp_status resp)) (resp_url resp)
    (Str.lower (Str.or_empty (default "" (resp_url_host resp))))
    (headers_get h "content-type")
    (headers_get h "server") (headers_get h "via") (headers_get h "cache-control")
    (headers_get h "cf-ray") (headers_get h "cf-cache-status")
    (headers_get h "x-cache") (headers_get h "x-served-by")
    (headers_get h "x-amz-cf-pop") (headers_get h "x-amz-cf-id")
    (headers_get h "x-vercel-id") (headers_get h "x-nf-request-id")
    (http_error fp).

Definition fetch_http_fingerprint (w : World) (session : Session)
    (domain : string) (timeout_s : float) : result HTTPFingerprint :=
  let fp := HTTPFingerprint_new in
  let url := "https://" +:+ domain +:+ "/" in
  try_except
    (resp ← session_get w session url timeout_s;
     let fp := http_capture fp resp in
     (* try: await resp.content.read(256)  except Exception: pass *)
     _ ← try_except (resp_content_read resp 256) (fun _ => mret tt);
     mret fp)
    (fun e => mret (http_set_error fp (str_exn e))).

(* ===================================================================== *)
(** ** TLS prober, main.py:200-254                                        *)
(* ===================================================================== *)

(** [_get_cert_cn]: the value of the first [commonName] pair of the named
    field, [""] when there is none. *)
Definition _get_cert_cn (subj : list (list (string * string))) : string :=
  match List.find (fun kv => bool_decide (Str.lower (fst kv) = "commonname"))
                  (List.concat subj) with
  | Some kv => snd kv
  | None => ""
  end.

Definition tls_set_error (fp : TLSFingerprint) (msg : string) : TLSFingerprint :=
  MkTLS (tls_ok fp) (tls_alpn fp) (tls_sni fp) (tls_peer_ip fp) (tls_subject_cn fp)
    (tls_issuer_cn fp) (tls_san fp) (tls_not_before fp) (tls_not_after fp) msg.

Definition tls_set_peer_ip (fp : TLSFingerprint) (ip : string) : TLSFingerprint :=
  MkTLS (tls_ok fp) (tls_alpn fp) (tls_sni fp) ip (tls_subject_cn fp)
    (tls_issuer_cn fp) (tls_san fp) (tls_not_before fp) (tls_not_after fp) (tls_error fp).

(** The assignments after a completed handshake. *)
Definition tls_capture (fp : TLSFingerprint) (sock : TLSSocket) : TLSFingerprint :=
  let cert := getpeercert sock in
  MkTLS true (Str.or_empty (default "" (selected_alpn_protocol sock)))
    (tls_sni fp) (tls_peer_ip fp)
    (_get_cert_cn (cert_subject cert)) (_get_cert_cn (cert_issuer cert))
    (List.map snd (List.filter (fun kv => bool_decide (Str.lower (fst kv) = "dns"))
                               (cert_subjectAltName cert)))
    (default "" (cert_notBefore cert)) (default "" (cert_notAfter cert))
    (tls_error fp).

(** The [try] block mutates [fp] step by step, so the handler sees the
    fingerprint as far as it was filled in: the state is threaded.  The set-up
    of the SSL context before the [try] touches no network and is taken to
    succeed, as are the reads of the certificate after the handshake. *)
Definition fetch_tls_fingerprint (w : World) (domain : string) (timeout_s : float)
    : result TLSFingerprint :=
  let fp := TLSFingerprint_new domain in
  match getaddrinfo w domain 443 with
  | inl e => mret (tls_set_error fp (str_exn e))
  | inr [] => mret (tls_set_error fp "getaddrinfo returned no results")
  | inr (ip :: _) =>
      let fp := tls_set_peer_ip fp ip in
      match socket_connect w ip 443 timeout_s with
      | inl e => mret (tls_set_error fp (str_exn e))
      | inr _ =>
          match wrap_socket w ip domain with
          | inl e => mret (tls_set_error fp (str_exn e))
          | inr tls_sock => mret (tls_capture fp tls_sock)
          end
      end
  end.

(* ===================================================================== *)
(** ** WebSocket prober, main.py:257-288                                  *)
(* ===================================================================== *)

Definition probe_one (w : World) (session : Session) (domain : string)
    (timeout_s : float) (p : string) : WebSocketProbe :=
  let p := if String.prefix "/" p then p else "/" +:+ p in
  let url := "wss://" +:+ domain +:+ p in
  let '(start, stop) := loop_time w url in
  let ms := PrimFloat.mul (PrimFloat.sub stop start) 1000%float in
  match ws_connect w session url timeout_s with
  | inr proto => MkWS url true (Str.or_empty (default "" proto)) "" ms
  | inl e => MkWS url false "" (str_exn e) ms
  end.

Definition probe_websockets (w : World) (session : Session) (domain : string)
    (paths : list string) (timeout_s : float) : result (list WebSocketProbe) :=
  mret (List.map (probe_one w session domain timeout_s) paths).

(* ===================================================================== *)
(** ** One domain's scan, main.py:308-343                                 *)
(* ===================================================================== *)

Definition res_set_cname_chain (res : DomainScanResult) (c : list string) :=
  MkRes (domain res) c (http res) (tls res) (websockets res) (signature res) (errors res).
Definition res_set_http (res : DomainScanResult) (fp : HTTPFingerprint) :=
  MkRes (domain res) (cname_chain res) fp (tls res) (websockets res) (signature res) (errors res).
Definition res_set_tls (res : DomainScanResult) (fp : TLSFingerprint) :=
  MkRes (domain res) (cname_chain res) (http res) fp (websockets res) (signature res) (errors res).
Definition res_set_websockets (res : DomainScanResult) (ws : list WebSocketProbe) :=
  MkRes (domain res) (cname_chain res) (http res) (tls res) ws (signature res) (errors res).
Definition res_set_signature (res : DomainScanResult) (s : string) :=
  MkRes (domain res) (cname_chain res) (http res) (tls res) (websockets res) s (errors res).
(** [res.errors.append(msg)] *)
Definition res_errors_append (res : DomainScanResult) (msg : string) :=
  MkRes (domain res) (cname_chain res) (http res) (tls res) (websockets res) (signature res)
        (errors res ++ [msg]).

(** The body under [async with sem]; the semaphore itself is the subject
    of the step relation further down. *)
Definition scan_domain (w : World) (session : Session) (d : string)
    (dns_timeout_s http_timeout_s tls_timeout_s ws_timeout_s : float)
    (ws_paths : list string) : result DomainScanResult :=
  let res := DomainScanResult_new d in
  res ← try_except
          (chain ← resolve_cname_chain w d dns_timeout_s;
           mret (res_set_cname_chain res chain))
          (fun e => mret (res_errors_append res ("cname: " +:+ str_exn e)));
  fp ← fetch_http_fingerprint w session d http_timeout_s;
  let res := res_set_http res fp in
  let res := if negb (http_ok (http res)) && Str.truthy (http_error (http res))
             then res_errors_append res ("http: " +:+ http_error (http res))
             else res in
  fp ← fetch_tls_fingerprint w d tls_timeout_s;
  let res := res_set_tls res fp in
  let res := if negb (tls_ok (tls res)) && Str.truthy (tls_error (tls res))
             then res_errors_append res ("tls: " +:+ tls_error (tls res))
             else res in
  res ← match ws_paths with
        | [] => mret res
        | _ :: _ =>
            ws ← probe_websockets w session d ws_paths ws_timeout_s;
            mret (res_set_websockets res ws)
        end;
  mret (res_set_signature res (compute_signature d (cname_chain res) (http res) (tls res))).

(* ===================================================================== *)
(** ** urllib.parse.urlparse, as far as [.hostname] goes                  *)
(* ===================================================================== *)

Module Url.

(** [s.partition(c)]: the text before the first [c], whether [c] was
    found, the text after it. *)
Fixpoint partition (c : ascii) (s : string) : string * bool * string :=
  match s with
  | EmptyString => (EmptyString, false, EmptyString)
  | String a r =>
      if decide (a = c) then (EmptyString, true, r)
      else let '(before, found, after) := partition c r in (String a before, found, after)
  end.

(** The third component of [s.rpartition(c)]: the text after the last [c],
    all of [s] when there is none. *)
Fixpoint after_last (c : ascii) (s : string) : string :=
  match s with
  | EmptyString => EmptyString
  | String a r =>
      let '(_, found, _) := partition c r in
      if found then after_last c r
      else if decide (a = c) then r else s
  end.

(** [sub in s] *)
Fixpoint contains (sub s : string) : bool :=
  String.prefix sub s ||
  match s with
  | EmptyString => false
  | String _ r => contains sub r
  end.

(** [s.count(c)] for a one-character [c] *)
Fixpoint count (c : ascii) (s : string) : nat :=
  match s with
  | EmptyString => 0
  | String a r => (if decide (a = c) then 1 else 0) + count c r
  end.

Fixpoint forallb (p : ascii -> bool) (s : string) : bool :=
  match s with
  | EmptyString => true
  | String a r => p a && forallb p r
  end.

Fixpoint remove (p : ascii -> bool) (s : string) : string :=
  match s with
  | EmptyString => EmptyString
  | String a r => if p a then remove p r else String a (remove p r)
  end.

Fixpoint take_until (p : ascii -> bool) (s : string) : string :=
  match s with
  | EmptyString => EmptyString
  | String a r => if p a then EmptyString else String a (take_until p r)
  end.

Definition in_range (lo hi : nat) (c : ascii) : bool :=
  let n := nat_of_ascii c in (lo <=? n)%nat && (n <=? hi)%nat.

Definition is_ascii_alpha (c : ascii) : bool := in_range 65 90 c || in_range 97 122 c.

(** [c in scheme_chars] *)
Definition is_scheme_char (c : ascii) : bool :=
  is_ascii_alpha c || in_range 48 57 c
  || bool_decide (c = "+"%char) || bool_decide (c = "-"%char) || bool_decide (c = "."%char).

(** [_WHATWG_C0_CONTROL_OR_SPACE] *)
Definition is_c0_or_space (c : ascii) : bool := in_range 0 32 c.

(** [_UNSAFE_URL_BYTES_TO_REMOVE]: tab, carriage return, line feed *)
Definition is_unsafe (c : ascii) : bool :=
  let n := nat_of_ascii c in
  bool_decide (n = 9) || bool_decide (n = 13) || bool_decide (n = 10).

Definition is_netloc_delim (c : ascii) : bool :=
  bool_decide (c = "/"%char) || bool_decide (c = "?"%char) || bool_decide (c = "#"%char).

Definition has (c : ascii) (s : string) : bool := negb (bool_decide (count c s = 0)).

(** The two checks of [urlsplit] that the model does not compute: the
    validation of a bracketed host by [ipaddress] and the NFKC check of a
    netloc that is not ASCII.  Each returns or raises [ValueError]. *)
Record Checks : Type := {
  _check_bracketed_netloc : string -> result unit;
  _checknetloc_nfkc : string -> result unit
}.

Definition is_ascii (s : string) : bool := forallb (in_range 0 127) s.

(** [urlsplit(url).netloc] *)
Definition netloc (k : Checks) (url : string) : result string :=
  let url := Strip.lstrip is_c0_or_space url in
  let url := remove is_unsafe url in
  let url :=
    match partition ":"%char url with
    | (String a r as pre, true, post) =>
        if is_ascii_alpha a && forallb is_scheme_char pre then post else url
    | _ => url
    end in
  if String.prefix "//" url then
    let nl := take_until is_netloc_delim (String.substring 2 (String.length url - 2) url) in
    if (has "["%char nl && negb (has "]"%char nl)) || (has "]"%char nl && negb (has "["%char nl))
    then raise (Raise_ ValueError "Invalid IPv6 URL")
    else
      _ ← (if has "["%char nl && has "]"%char nl then _check_bracketed_netloc k nl else mret tt);
      _ ← (if negb (Str.truthy nl) || is_ascii nl then mret tt else _checknetloc_nfkc k nl);
      mret nl
  else mret "".

(** [urlparse(url).hostname] *)
Definition hostname (k : Checks) (url : string) : result (option string) :=
  nl ← netloc k url;
  let hostinfo := after_last "@"%char nl in
  let '(_, have_open_br, bracketed) := partition "["%char hostinfo in
  let host := if have_open_br then fst (fst (partition "]"%char bracketed))
              else fst (fst (partition ":"%char hostinfo)) in
  if Str.truthy host then
    let '(h, percent, zone) := partition "%"%char host in
    mret (Some (Str.lower h +:+ (if percent then "%" else "") +:+ zone))
  else mret None.

End Url.

(* ===================================================================== *)
(** ** Domain normalizer, main.py:28-54                                   *)
(* ===================================================================== *)

Definition strip_dot : string -> string := Strip.strip Strip.is_dot.

Definition _norm_domain (k : Url.Checks) (line : string) : result (option string) :=
  let s := Strip.strip Strip.is_space line in
  if negb (Str.truthy s) || String.prefix "#" s then mret None
  else if Url.contains "://" s then
    host ← Url.hostname k s;
    match host with
    | None => mret None
    | Some h => if Str.truthy h then mret (Some (Str.lower (strip_dot h))) else mret None
    end
  else
    let s := fst (fst (Url.partition "/"%char s)) in
    let s := if Url.has ":"%char s && bool_decide (Url.count ":"%char s = 1)
             then fst (fst (Url.partition ":"%char s)) else s in
    let r := Str.lower (strip_dot s) in
    mret (if Str.truthy r then Some r else None).

(** The loop of [read_domains] over the lines still to read. *)
Fixpoint read_domains_loop (k : Url.Checks) (lines : list string) (domains : list string)
    : result (list string) :=
  match lines with
  | [] => mret domains
  | line :: rest =>
      d ← _norm_domain k line;
      match d with
      | Some d' => if Str.truthy d' then read_domains_loop k rest (domains ++ [d'])
                   else read_domains_loop k rest domains
      | None => read_domains_loop k rest domains
      end
  end.

Definition read_domains (w : World) (k : Url.Checks) (path : string) : result (list string) :=
  lines ← fs_read w path;
  read_domains_loop k lines [].

(* ===================================================================== *)
(** ** Aggregator, main.py:384-412                                        *)
(* ===================================================================== *)

(** A [dict] keeps its keys in insertion order: an association list with
    one entry per key, new keys added at the end. *)
Section Dict.
Context {V : Type}.

(** [d[k] = f(d.get(k, dflt))]: the entry is updated where it stands, or
    created last. *)
Fixpoint dict_upsert (k : string) (dflt : V) (f : V -> V)
    (d : list (string * V)) : list (string * V) :=
  match d with
  | [] => [(k, f dflt)]
  | (k', v) :: rest =>
      if decide (k' = k) then (k', f v) :: rest
      else (k', v) :: dict_upsert k dflt f rest
  end.
End Dict.

(** [sorted(items, key=key, reverse=True)].  Python's sort is stable and
    [reverse=True] keeps the original order of items with equal keys, which
    fixes the result; it is computed here by insertion from the right. *)
Section Sorted.
Context {A : Type} (key : A -> nat).

Fixpoint insert_reverse (x : A) (l : list A) : list A :=
  match l with
  | [] => [x]
  | y :: rest =>
      if (key y <=? key x)%nat then x :: y :: rest
      else y :: insert_reverse x rest
  end.

Fixpoint sorted_reverse (l : list A) : list A :=
  match l with
  | [] => []
  | x :: rest => insert_reverse x (sorted_reverse rest)
  end.
End Sorted.

(** The dictionary [groups] after the [for r in results] loop:
    [groups.setdefault(r.signature, []).append(r)]. *)
Definition groups_of (results : list DomainScanResult)
    : list (string * list DomainScanResult) :=
  List.fold_left
    (fun groups r => dict_upsert (signature r) [] (fun rs => rs ++ [r]) groups)
    results [].

Definition group_by_signature (results : list DomainScanResult)
    : list (string * list DomainScanResult) :=
  sorted_reverse (fun kv => List.length (snd kv)) (groups_of results).

Definition newline : string := String (ascii_of_nat 10) EmptyString.

(** [write_jsonl]: one line per result; [dumps] is
    [json.dumps(asdict(r), ensure_ascii=False)]. *)
Definition write_jsonl (w : World) (dumps : DomainScanResult -> string)
    (path : string) (results : list DomainScanResult) : result unit :=
  fs_write w path (List.map (fun r => dumps r +:+ newline) results).

(** The writes of [write_summary] for one group. *)
Definition summary_block (sig : string) (rs : list DomainScanResult) : list string :=
  let host :=
    List.fold_left
      (fun host r =>
         if Str.truthy (http_final_host (http r))
         then dict_upsert (http_final_host (http r)) 0%nat S host
         else host)
      rs [] in
  [ "# " +:+ sig +:+ " (" +:+ Str.of_int (Z.of_nat (List.length rs)) +:+ " domains)" +:+ newline ]
  ++ match host with
     | [] => []
     | _ :: _ =>
         let top := List.firstn 5 (sorted_reverse snd host) in
         [ "final_host: "
           +:+ Str.join ", "
                 (List.map (fun kv => fst kv +:+ "(" +:+ Str.of_int (Z.of_nat (snd kv)) +:+ ")") top)
           +:+ newline ]
     end
  ++ [ newline ]
  ++ List.map (fun r => "- " +:+ domain r +:+ newline) rs
  ++ [ newline ].

Definition write_summary (w : World) (path : string)
    (grouped : list (string * list DomainScanResult)) : result unit :=
  fs_write w path (List.concat (List.map (fun kv => summary_block (fst kv) (snd kv)) grouped)).

(* ===================================================================== *)
(** ** The scan command, main.py:415-525                                  *)
(* ===================================================================== *)

(** The [argparse.Namespace] of the [scan] subcommand. *)
Record Namespace : Type := {
  domains_file : string;
  concurrency : Z;
  dns_timeout : float;
  http_timeout : float;
  tls_timeout : float;
  ws_timeout : float;
  ws : bool;
  ws_paths : list string;
  jsonl : string;
  summary : string;
  top : Z;
  show_domains : Z;
  quiet : bool;
  progress : Z;
  user_agent : string
}.

(** The defaults of [build_parser] around the one required argument. *)
Definition parser_defaults (file : string) : Namespace :=
  {| domains_file := file; concurrency := 50;
     dns_timeout := 2.5%float; http_timeout := 8%float;
     tls_timeout := 5%float; ws_timeout := 6%float;
     ws := false; ws_paths := [];
     jsonl := ""; summary := ""; top := 25; show_domains := 0;
     quiet := false; progress := 0;
     user_agent := "whitelists-research-v2/0.1" |}.

Definition default_ws_paths : list string :=
  [ "/"; "/ws"; "/websocket"; "/socket.io/?EIO=4&transport=websocket" ].

(** [asyncio.Semaphore(value)]: the counter, refused when negative. *)
Definition Semaphore (value : Z) : result nat :=
  if (value <? 0)%Z then raise (Raise_ ValueError "Semaphore initial value must be >= 0")
  else mret (Z.to_nat value).

(** What the libraries around the scan supply and the model does not
    compute: the checks of [urlparse], [json.dumps], and for each task
    index the moment its scan finishes, which orders [as_completed]. *)
Record Runtime : Type := {
  url_checks : Url.Checks;
  json_dumps : DomainScanResult -> string;
  finish_time : nat -> nat
}.

(** [asyncio.as_completed(tasks)]: the results by finishing time, earliest
    first (the descending sort of the reversed list, read backwards). *)
Definition as_completed {A} (rt : Runtime) (tasks : list A) : list A :=
  List.map snd
    (List.rev (sorted_reverse (fun it => finish_time rt (fst it))
                 (List.rev (List.combine (List.seq 0 (List.length tasks)) tasks)))).

(** What a run of [scan_action] leaves behind; standard output is not part
    of the model. *)
Record Run : Type := {
  run_status : Z;
  run_stderr : list string;
  run_results : list DomainScanResult;
  run_grouped : list (string * list DomainScanResult)
}.

(** A coroutine either comes back or waits for ever. *)
Inductive completion (A : Type) : Type :=
  | Done (a : A)
  | Hangs.
Arguments Done {A} a.
Arguments Hangs {A}.

(** [mapM] of the error monad. *)
Fixpoint for_each {A B} (f : A -> result B) (l : list A) : result (list B) :=
  match l with
  | [] => mret []
  | a :: rest => b ← f a; bs ← for_each f rest; mret (b :: bs)
  end.

Definition scan_action (w : World) (rt : Runtime) (args : Namespace)
    : result (completion Run) :=
  domains ← read_domains w (url_checks rt) (domains_file args);
  match domains with
  | [] => mret (Done {| run_status := 2; run_stderr := ["No domains found."];
                        run_results := []; run_grouped := [] |})
  | _ :: _ =>
      let paths :=
        if ws args
        then match ws_paths args with [] => default_ws_paths | _ :: _ => ws_paths args end
        else [] in
      let session := {| session_user_agent := user_agent args |} in
      sem ← Semaphore (concurrency args);
      match sem with
      | O => mret Hangs   (* no task ever passes [async with sem] *)
      | S _ =>
          done ← for_each
                   (fun d => scan_domain w session d (dns_timeout args) (http_timeout args)
                               (tls_timeout args) (ws_timeout args) paths)
                   domains;
          let results := as_completed rt done in
          let grouped := group_by_signature results in
          _ ← (if Str.truthy (jsonl args)
               then write_jsonl w (json_dumps rt) (jsonl args) results else mret tt);
          _ ← (if Str.truthy (summary args)
               then write_summary w (summary args) grouped else mret tt);
          mret (Done {| run_status := 0; run_stderr := [];
                        run_results := results; run_grouped := grouped |})
      end
  end.

(** How the process ends. *)
Inductive process_end : Type :=
  | Exit (status : Z)
  | Traceback (e : exn)
  | Never.

(** [ArgumentParser.error] prints the usage and exits with status 2. *)
Definition argparse_error_status : Z := 2.

(** [raise SystemExit(main(sys.argv[1:]))].  [parsed] is what
    [build_parser().parse_args(argv)] made of the command line: [None] when
    argparse rejected it.  A command line asking for help ends inside
    [parse_args] with status 0 and is no case of this function; [program]
    below covers it. *)
Definition main (w : World) (rt : Runtime) (parsed : option Namespace) : process_end :=
  match parsed with
  | None => Exit argparse_error_status
  | Some args =>
      match scan_action w rt args with
      | inl e => Traceback e
      | inr (Done run) => Exit (run_status run)
      | inr Hangs => Never
      end
  end.

(* ===================================================================== *)
(** ** The orchestrator: tasks under the semaphore, main.py:319, 427-452   *)
(* ===================================================================== *)

(** The [await] at which the body of [scan_domain] is suspended. *)
Inductive phase : Type := InDns | InHttp | InTls | InWs.

(** A task created by [asyncio.create_task(scan_domain(...))]: waiting at
    [async with sem], inside the body, or finished. *)
Inductive task : Type :=
  | Waiting
  | Running (p : phase)
  | Finished.

Record orch : Type := { sem_value : nat; tasks : list task }.

(** The next [await] of the body, [None] when the body runs to its end;
    the WebSocket probes are awaited only [if ws_paths]. *)
Definition next_phase (ws_enabled : bool) (p : phase) : option phase :=
  match p with
  | InDns => Some InHttp
  | InHttp => Some InTls
  | InTls => if ws_enabled then Some InWs else None
  | InWs => None
  end.

(** What the event loop may do next: let task [i] through the semaphore, or
    resume task [i] from the probe it awaits. *)
Inductive event : Type :=
  | Enter (i : nat)
  | Resume (i : nat).

(** One step of the loop; [None] when the event is not enabled.  [Enter]
    is [sem.acquire()] ([_value -= 1], only when positive); a [Resume] that
    ends the body leaves the [async with] through [sem.release()]
    ([_value += 1]). *)
Definition fire (ws_enabled : bool) (ev : event) (o : orch) : option orch :=
  match ev with
  | Enter i =>
      match tasks o !! i, sem_value o with
      | Some Waiting, S v => Some {| sem_value := v; tasks := <[i := Running InDns]> (tasks o) |}
      | _, _ => None
      end
  | Resume i =>
      match tasks o !! i with
      | Some (Running p) =>
          match next_phase ws_enabled p with
          | Some p' => Some {| sem_value := sem_value o; tasks := <[i := Running p']> (tasks o) |}
          | None => Some {| sem_value := S (sem_value o); tasks := <[i := Finished]> (tasks o) |}
          end
      | _ => None
      end
  end.

(** A schedule is the list of events in the order the loop takes them. *)
Fixpoint run (ws_enabled : bool) (schedule : list event) (o : orch) : option orch :=
  match schedule with
  | [] => Some o
  | ev :: rest =>
      match fire ws_enabled ev o with
      | Some o' => run ws_enabled rest o'
      | None => None
      end
  end.

(** After [sem = asyncio.Semaphore(value)] and the creation of one task
    per domain. *)
Definition orch_init (value : nat) (domains : list string) : orch :=
  {| sem_value := value; tasks := List.map (fun _ => Waiting) domains |}.

Definition is_running (t : task) : bool :=
  match t with Running _ => true | _ => false end.

(** The number of [scan_domain] bodies between acquire and release. *)
Definition in_flight (o : orch) : nat := List.length (List.filter is_running (tasks o)).

(* ===================================================================== *)
(** ** Properties named by the specification                              *)
(* ===================================================================== *)

(** The fixed field set of the signature: the last CNAME target and ten
    fields of the two fingerprints. *)
Definition same_signature_fields
    (c1 : list string) (h1 : HTTPFingerprint) (t1 : TLSFingerprint)
    (c2 : list string) (h2 : HTTPFingerprint) (t2 : TLSFingerprint) : Prop :=
  last c1 = last c2
  /\ http_final_host h1 = http_final_host h2
  /\ http_status h1 = http_status h2
  /\ http_content_type h1 = http_content_type h2
  /\ http_server h1 = http_server h2
  /\ http_via h1 = http_via h2
  /\ http_cache h1 = http_cache h2
  /\ http_x_cache h1 = http_x_cache h2
  /\ http_x_served_by h1 = http_x_served_by h2
  /\ tls_issuer_cn t1 = tls_issuer_cn t2
  /\ tls_alpn t1 = tls_alpn t2.

Definition is_hex (c : ascii) : bool := Url.in_range 48 57 c || Url.in_range 97 102 c.

(** The curated headers: the field of the fingerprint and the header it is
    read from. *)
Definition curated_headers : list ((HTTPFingerprint -> string) * string) :=
  [ (http_content_type, "content-type"); (http_server, "server"); (http_via, "via");
    (http_cache, "cache-control"); (http_cf_ray, "cf-ray");
    (http_cf_cache_status, "cf-cache-status"); (http_x_cache, "x-cache");
    (http_x_served_by, "x-served-by"); (http_x_amz_cf_pop, "x-amz-cf-pop");
    (http_x_amz_cf_id, "x-amz-cf-id"); (http_x_vercel_id, "x-vercel-id");
    (http_x_nf_request_id, "x-nf-request-id") ].

(** Section 3, on an [HTTPFingerprint]: exactly one of (success with
    status) or (error) holds. *)
Definition http_success (fp : HTTPFingerprint) : Prop :=
  http_ok fp = true /\ is_Some (http_status fp).
Definition http_has_error (fp : HTTPFingerprint) : Prop := http_error fp <> "".
Definition exactly_one_of_success_or_error (fp : HTTPFingerprint) : Prop :=
  (http_success fp /\ ~ http_has_error fp) \/ (~ http_success fp /\ http_has_error fp).

(** The ways the TLS probe fails, with the message it records. *)
Inductive tls_probe_fails (w : World) (d : string) (timeout_s : float) : string -> Prop :=
  | tls_fails_getaddrinfo e :
      getaddrinfo w d 443 = inl e -> tls_probe_fails w d timeout_s (str_exn e)
  | tls_fails_no_address :
      getaddrinfo w d 443 = inr [] ->
      tls_probe_fails w d timeout_s "getaddrinfo returned no results"
  | tls_fails_connect ip ips e :
      getaddrinfo w d 443 = inr (ip :: ips) ->
      socket_connect w ip 443 timeout_s = inl e ->
      tls_probe_fails w d timeout_s (str_exn e)
  | tls_fails_handshake ip ips e :
      getaddrinfo w d 443 = inr (ip :: ips) ->
      socket_connect w ip 443 timeout_s = inr tt ->
      wrap_socket w ip d = inl e ->
      tls_probe_fails w d timeout_s (str_exn e).

(** The chain [scan_domain] keeps: the one returned, none when
    [resolve_cname_chain] raised. *)
Definition chain_kept (c : result (list string)) : list string :=
  match c with
  | inl _ => []
  | inr chain => chain
  end.

(** The entry [scan_domain] appends when [resolve_cname_chain] raises. *)
Definition cname_errors (c : result (list string)) : list string :=
  match c with
  | inl e => ["cname: " +:+ str_exn e]
  | inr _ => []
  end.

(** The entries [scan_domain] appends for the two fingerprints. *)
Definition probe_errors (h : HTTPFingerprint) (t : TLSFingerprint) : list string :=
  (if negb (http_ok h) && Str.truthy (http_error h) then ["http: " +:+ http_error h] else [])
  ++ (if negb (tls_ok t) && Str.truthy (tls_error t) then ["tls: " +:+ tls_error t] else []).

(** The URL [probe_websockets] builds for a path. *)
Definition wss_url (d p : string) : string :=
  "wss://" +:+ d +:+ (if String.prefix "/" p then p else "/" +:+ p).

(** Position of the first occurrence of a signature among the results,
    their number when there is none. *)
Fixpoint first_seen (s : string) (results : list DomainScanResult) : nat :=
  match results with
  | [] => 0
  | r :: rest => if decide (signature r = s) then 0 else S (first_seen s rest)
  end.

(** [d.get(k)] on the association list of a [dict]. *)
Fixpoint dict_get {V} (k : string) (d : list (string * V)) : option V :=
  match d with
  | [] => None
  | (k', v) :: rest => if decide (k' = k) then Some v else dict_get k rest
  end.

(** The results that carry a signature, in the order of the input. *)
Definition with_signature (s : string) (results : list DomainScanResult)
    : list DomainScanResult :=
  List.filter (fun r => bool_decide (signature r = s)) results.

(** The member count of a group. *)
Definition members (g : string * list DomainScanResult) : nat := List.length (snd g).

(** Larger key first, and for equal keys the earlier position first. *)
Definition key_then_pos {A} (key pos : A -> nat) (a b : A) : Prop :=
  (key b < key a)%nat \/ (key a = key b /\ (pos a < pos b)%nat).

(** The ranking of section 4.8: more members first, and among groups of
    equal size the one whose signature was met first. *)
Definition ranked (results : list DomainScanResult)
    : relation (string * list DomainScanResult) :=
  key_then_pos members (fun g => first_seen (fst g) results).

(** What the dictionary [groups] holds once the results [pre] have gone
    through the loop: for each signature met its results in input order, and
    the keys in the order the signatures were first met. *)
Definition groups_invariant (pre : list DomainScanResult)
    (g : list (string * list DomainScanResult)) : Prop :=
  StronglySorted (fun s1 s2 => (first_seen s1 pre < first_seen s2 pre)%nat) (List.map fst g)
  /\ (forall s, dict_get s g
                = match with_signature s pre with
                  | [] => None
                  | rs => Some rs
                  end).

(** What a task adds to the count of scans in flight. *)
Definition running_count (t : task) : nat := if is_running t then 1%nat else 0%nat.

(* ===================================================================== *)
(** ** Sample inputs                                                      *)
(* ===================================================================== *)

Module Samples.

(** Two successful fingerprints that agree on the signature fields and
    differ elsewhere (final URL, cf-ray). *)
Definition http_a : HTTPFingerprint :=
  MkHTTP true (Some 200%Z) "https://a.example/" "edge.cdn.example" "Text/HTML" "CDN-Srv"
         "1.1 varnish" "max-age=60" "8a1" "HIT" "Hit" "cache-ams1" "" "" "" "" "".
Definition http_b : HTTPFingerprint :=
  MkHTTP true (Some 200%Z) "https://b.example/home" "edge.cdn.example" "Text/HTML" "CDN-Srv"
         "1.1 varnish" "max-age=60" "9f2" "MISS" "Hit" "cache-ams1" "" "" "" "" "".


Definition tls_a : TLSFingerprint :=
  MkTLS true "h2" "a.example" "192.0.2.1" "a.example" "Example CA" ["a.example"] "" "" "".
Definition tls_b : TLSFingerprint :=
  MkTLS true "h2" "b.example" "192.0.2.2" "b.example" "Example CA" ["b.example"] "" "" "".

Definition unreachable : exn := Raise_ OSError "Network is unreachable".

(** A zone given by its CNAME records; any other name has none. *)
Definition zone (records : list (string * string)) (_ : float) (name : string)
    : result Answer :=
  match List.find (fun kv => bool_decide (fst kv = name)) records with
  | Some kv => inr {| ans_target0 := inr (snd kv) |}
  | None => inl (Raise_ NXDOMAIN ("The DNS query name does not exist: " +:+ name +:+ "."))
  end.

(** A server answering 200 with two of the curated headers. *)
Definition response_200 (host : string) : Response :=
  {| resp_status := 200; resp_url := "https://" +:+ host +:+ "/";
     resp_url_host := Some host;
     resp_headers := {[ "server" := "nginx"; "content-type" := "text/html" ]};
     resp_content_read := fun _ => inr tt |}.

Definition handshake : TLSSocket :=
  {| selected_alpn_protocol := Some "h2";
     getpeercert := {| cert_subject := []; cert_issuer := []; cert_notBefore := None;
                       cert_notAfter := None; cert_subjectAltName := [] |} |}.

(** A world built from a zone, the outcome of the GET, whether the TLS
    handshake goes through, and the lines of every file. *)
Definition world (records : list (string * string)) (get : string -> result Response)
    (tls_up : bool) (lines : list string) : World :=
  {| fs_read := fun _ => inr lines;
     fs_write := fun _ _ => inr tt;
     new_resolver := inr tt;
     dns_resolve := zone records;
     session_get := fun _ url _ => get url;
     getaddrinfo := fun _ _ => inr ["192.0.2.7"];
     socket_connect := fun _ _ _ => inr tt;
     wrap_socket := fun _ _ =>
       if tls_up then inr handshake
       else inl (Raise_ SSLError "[SSL: TLSV1_ALERT_INTERNAL_ERROR] tlsv1 alert internal error");
     ws_connect := fun _ _ _ => inl unreachable;
     loop_time := fun _ => (1%float, 1.25%float) |}.

(** A resolver in which every query runs into the timeout. *)
Definition dns_times_out (_ : float) (_ : string) : result Answer :=
  inl (Raise_ DnsTimeout "The DNS operation timed out.").

(** [world] with another resolver. *)
Definition with_dns (w : World) (resolver : result unit)
    (resolve : float -> string -> result Answer) : World :=
  {| fs_read := fs_read w; fs_write := fs_write w;
     new_resolver := resolver; dns_resolve := resolve;
     session_get := session_get w; getaddrinfo := getaddrinfo w;
     socket_connect := socket_connect w; wrap_socket := wrap_socket w;
     ws_connect := ws_connect w; loop_time := loop_time w |}.

Definition get_ok (url : string) : result Response := inr (response_200 "www.example").
(** A request that runs into the total timeout: [asyncio.TimeoutError()]
    has an empty message. *)
Definition get_timeout (url : string) : result Response := inl (Raise_ TimeoutError "").

(** A finished scan known by its domain and signature only. *)
Definition scanned (d sig : string) : DomainScanResult :=
  MkRes d [] HTTPFingerprint_new (TLSFingerprint_new d) [] sig [].

Definition session : Session := {| session_user_agent := "whitelists-research-v2/0.1" |}.

Definition runtime : Runtime :=
  {| url_checks := {| Url._check_bracketed_netloc := fun _ => inr tt;
                      Url._checknetloc_nfkc := fun _ => inr tt |};
     json_dumps := fun r => "{}";
     finish_time := fun i => i |}.

End Samples.

(* ===================================================================== *)
(** ** Further notions used by the properties of the code                 *)
(* ===================================================================== *)

(** [chain] is a walk of the zone from [origin]: each entry is the first
    CNAME target, trailing dots removed, of the name before it. *)
Inductive cname_walk (w : World) (timeout_s : float) : string -> list string -> Prop :=
  | walk_nil origin : cname_walk w timeout_s origin []
  | walk_cons origin ans raw rest :
      dns_resolve w timeout_s origin = inr ans ->
      ans_target0 ans = inr raw ->
      cname_walk w timeout_s (rstrip_dot raw) rest ->
      cname_walk w timeout_s origin (rstrip_dot raw :: rest).

(** Why the walk ended after [chain]: ten hops were made, the name reached
    had been queried before, or it did not resolve to a target. *)
Definition walk_stopped (w : World) (timeout_s : float) (origin : string)
    (chain : list string) : Prop :=
  let cur := List.last chain origin in
  List.length chain = 10%nat
  \/ In cur (removelast (origin :: chain))
  \/ (exists e, dns_resolve w timeout_s cur = inl e)
  \/ (exists ans e, dns_resolve w timeout_s cur = inr ans /\ ans_target0 ans = inl e).

(** Resolving [name] fails: the query raises, whatever the exception, or
    the first target of its answer cannot be read. *)
Definition resolution_fails (w : World) (timeout_s : float) (name : string) : Prop :=
  (exists e, dns_resolve w timeout_s name = inl e)
  \/ (exists ans e, dns_resolve w timeout_s name = inr ans /\ ans_target0 ans = inl e).

(** The characters of a host name: ASCII letters, digits, hyphen, dot. *)
Definition is_host_char (c : ascii) : bool :=
  Url.is_ascii_alpha c || Url.in_range 48 57 c
  || bool_decide (c = "-"%char) || bool_decide (c = "."%char).

(** What [read_domains] keeps of the outcome of one line: [if d:]. *)
Definition kept (o : option string) : option string :=
  match o with
  | Some d => if Str.truthy d then Some d else None
  | None => None
  end.

(** The CNAME part of the signature: the last entry of the chain in
    lowercase, empty for an empty chain. *)
Definition terminal_cname (chain : list string) : string :=
  from_option Str.lower "" (last chain).

(** The fields that [compute_signature] lowercases hold ASCII text, where
    [Str.lower] is [str.lower]. *)
Definition ascii_fields (c : list string) (h : HTTPFingerprint) (t : TLSFingerprint)
    : bool :=
  Url.is_ascii (from_option id "" (last c))
  && Url.is_ascii (http_content_type h) && Url.is_ascii (http_server h)
  && Url.is_ascii (http_via h) && Url.is_ascii (http_cache h)
  && Url.is_ascii (http_x_cache h) && Url.is_ascii (http_x_served_by h)
  && Url.is_ascii (tls_issuer_cn t) && Url.is_ascii (tls_alpn t).

(** Agreement on the signature fields up to the case of letters, in the
    fields that [compute_signature] lowercases. *)
Definition same_fields_up_to_case
    (c1 : list string) (h1 : HTTPFingerprint) (t1 : TLSFingerprint)
    (c2 : list string) (h2 : HTTPFingerprint) (t2 : TLSFingerprint) : Prop :=
  terminal_cname c1 = terminal_cname c2
  /\ http_final_host h1 = http_final_host h2
  /\ http_status h1 = http_status h2
  /\ Str.lower (http_content_type h1) = Str.lower (http_content_type h2)
  /\ Str.lower (http_server h1) = Str.lower (http_server h2)
  /\ Str.lower (http_via h1) = Str.lower (http_via h2)
  /\ Str.lower (http_cache h1) = Str.lower (http_cache h2)
  /\ Str.lower (http_x_cache h1) = Str.lower (http_x_cache h2)
  /\ Str.lower (http_x_served_by h1) = Str.lower (http_x_served_by h2)
  /\ Str.lower (tls_issuer_cn t1) = Str.lower (tls_issuer_cn t2)
  /\ Str.lower (tls_alpn t1) = Str.lower (tls_alpn t2).

(** The dictionary [host] of [write_summary] for one group: for each final
    host that is not empty, the number of members that have it. *)
Definition final_host_counts (rs : list DomainScanResult) : list (string * nat) :=
  List.fold_left
    (fun host r =>
       if Str.truthy (http_final_host (http r))
       then dict_upsert (http_final_host (http r)) 0%nat S host
       else host)
    rs [].

(** The list [top] of [write_summary]: [sorted(host.items(), ...)[:5]]. *)
Definition top_hosts (rs : list DomainScanResult) : list (string * nat) :=
  List.firstn 5 (sorted_reverse snd (final_host_counts rs)).

(** The members of a group whose final host is [h]. *)
Definition with_final_host (h : string) (rs : list DomainScanResult)
    : list DomainScanResult :=
  List.filter (fun r => bool_decide (http_final_host (http r) = h)) rs.

(** The paths [scan_action] hands to every scan. *)
Definition paths_probed (args : Namespace) : list string :=
  if ws args
  then match ws_paths args with [] => default_ws_paths | _ :: _ => ws_paths args end
  else [].

(** How far a task has come: the number of steps of the loop behind it,
    counting the WebSocket step for a body that skipped it. *)
Definition rank (t : task) : nat :=
  match t with
  | Waiting => 0
  | Running InDns => 1
  | Running InHttp => 2
  | Running InTls => 3
  | Running InWs => 4
  | Finished => 5
  end.

Definition steps_taken (o : orch) : nat := list_sum (List.map rank (tasks o)).

(** The probes a body awaits. *)
Definition awaits (ws_enabled : bool) : nat := if ws_enabled then 4%nat else 3%nat.

(** The schedule that takes the tasks in the order of their creation and
    runs each one from the semaphore to the end of its body. *)
Definition one_by_one (ws_enabled : bool) (first n : nat) : list event :=
  List.flat_map (fun i => Enter i :: List.repeat (Resume i) (awaits ws_enabled))
                (List.seq first n).




(* ===================================================================== *)
(** ** SHA-256 test vectors and decimal numerals                          *)
(* ===================================================================== *)

Example sha256_constants :
  List.firstn 2 SHA256.K = [0x428a2f98; 0x71374491]%N
  /\ List.last SHA256.K 0%N = 0xc67178f2%N
  /\ SHA256.sa SHA256.H0 = 0x6a09e667%N /\ SHA256.sh SHA256.H0 = 0x5be0cd19%N.
Proof. vm_compute. auto. Qed.

Example sha256_empty :
  _sha256_hex "" = "e3b0c44298fc1c149afbf4c8996fb92427ae41e4649b934ca495991b7852b855".
Proof. vm_compute. reflexivity. Qed.

Example sha256_abc :
  _sha256_hex "abc" = "ba7816bf8f01cfea414140de5dae2223b00361a396177a9cb410ff61f20015ad".
Proof. vm_compute. reflexivity. Qed.

Example sha256_two_blocks :
  _sha256_hex "abcdbcdecdefdefgefghfghighijhijkijkljklmklmnlmnomnopnopq"
  = "248d6a61d20638b8e5c026930c3e6039a33ce45964ff2167f6ecedd419db06c1".
Proof. vm_compute. reflexivity. Qed.

Example of_int_examples :
  Str.of_int 200 = "200" /\ Str.of_int 0 = "0" /\ Str.of_int (-7) = "-7".
Proof. vm_compute. auto. Qed.


(* ===================================================================== *)
(** ** Facts about the [str] methods and the digest                       *)
(* ===================================================================== *)

Lemma lower_ascii_idempotent (c : ascii) :
  Str.lower_ascii (Str.lower_ascii c) = Str.lower_ascii c.
Proof. destruct c as [[] [] [] [] [] [] [] []]; reflexivity. Qed.

Lemma lower_idempotent (s : string) : Str.lower (Str.lower s) = Str.lower s.
Proof.
  induction s as [|c s IH]; simpl; [reflexivity|].
  now rewrite lower_ascii_idempotent, IH.
Qed.

Lemma or_empty_id (s : string) : Str.or_empty s = s.
Proof. unfold Str.or_empty. destruct (decide (s = "")); congruence. Qed.



Lemma hex_digit_is_hex (x : N) : is_hex (SHA256.hex_digit x) = true.
Proof.
  unfold SHA256.hex_digit.
  assert (Hlt : (N.land x 15 < 16)%N).
  { change 15%N with (N.ones 4). rewrite N.land_ones. now apply N.mod_lt. }
  remember (N.land x 15) as d eqn:Hd. clear Hd x.
  assert (Hn : (N.to_nat d < 16)%nat) by lia.
  rewrite <- (N2Nat.id d). remember (N.to_nat d) as n eqn:E. clear E Hlt d.
  do 16 (destruct n as [|n]; [reflexivity|]). lia.
Qed.

Lemma take16_hexdigest (msg : list N) :
  String.length (Str.take 16 (SHA256.hexdigest msg)) = 16%nat
  /\ Url.forallb is_hex (Str.take 16 (SHA256.hexdigest msg)) = true.
Proof.
  unfold SHA256.hexdigest. generalize (SHA256.digest msg) as s. intros s.
  split; [reflexivity|].
  unfold Str.take, SHA256.hex8. cbn [String.substring Url.forallb].
  rewrite !hex_digit_is_hex. reflexivity.
Qed.


(* ===================================================================== *)
(** ** The CNAME walk: C3 and C6                                          *)
(* ===================================================================== *)

Lemma last_cons_default {A} (x d : A) (l : list A) :
  List.last (x :: l) d = List.last l x.
Proof.
  revert x d. induction l as [|y l IH]; intros x d; [reflexivity|].
  change (List.last (x :: y :: l) d) with (List.last (y :: l) d).
  now rewrite !IH.
Qed.

Section Walk.
Variable w : World.
Variable timeout_s : float.

(** An iteration whose query fails leaves the loop with the chain as it
    stands. *)
Lemma _do_loop_query_fails n chain cur seen e :
  cur ∉ seen ->
  dns_resolve w timeout_s cur = inl e ->
  _do_loop w timeout_s (S n) chain cur seen = inr chain.
Proof.
  intros Hnew Hq. simpl. destruct (decide (cur ∈ seen)); [contradiction|].
  rewrite Hq. now destruct (dns_listed e).
Qed.

Lemma _do_loop_target_fails n chain cur seen ans e :
  cur ∉ seen ->
  dns_resolve w timeout_s cur = inr ans ->
  ans_target0 ans = inl e ->
  _do_loop w timeout_s (S n) chain cur seen = inr chain.
Proof.
  intros Hnew Hq Ht. simpl. destruct (decide (cur ∈ seen)); [contradiction|].
  now rewrite Hq, Ht.
Qed.

Lemma _do_loop_seen n chain cur seen :
  cur ∈ seen -> _do_loop w timeout_s n chain cur seen = inr chain.
Proof.
  intros Hin. destruct n; simpl; [reflexivity|].
  destruct (decide (cur ∈ seen)); [reflexivity|contradiction].
Qed.

Lemma _do_loop_step n chain cur seen ans t :
  cur ∉ seen ->
  dns_resolve w timeout_s cur = inr ans ->
  ans_target0 ans = inr t ->
  _do_loop w timeout_s (S n) chain cur seen
  = _do_loop w timeout_s n (chain ++ [rstrip_dot t]) (rstrip_dot t) (seen ∪ {[cur]}).
Proof.
  intros Hnew Hq Ht. simpl. destruct (decide (cur ∈ seen)); [contradiction|].
  now rewrite Hq, Ht.
Qed.

(** The loop follows a walk of fresh, pairwise distinct names to its end
    and, when the name reached does not resolve, returns what it has
    collected: the chain it started with and the names of the walk. *)
Lemma _do_loop_follows_walk (names : list string) :
  forall n chain cur seen,
    cname_walk w timeout_s cur names ->
    NoDup (cur :: names) ->
    (forall x, In x (cur :: names) -> x ∉ seen) ->
    (List.length names < n)%nat ->
    resolution_fails w timeout_s (List.last names cur) ->
    _do_loop w timeout_s n chain cur seen = inr (chain ++ names).
Proof.
  induction names as [|name rest IH]; intros n chain cur seen Hwalk Hnd Hfresh Hlen Hfails.
  - destruct n as [|n]; [simpl in Hlen; lia|]. rewrite app_nil_r.
    assert (Hnew : cur ∉ seen) by (apply Hfresh; now left).
    destruct Hfails as [(e & Hq)|(ans & e & Hq & Ht)].
    + now apply (_do_loop_query_fails _ _ _ _ e).
    + now apply (_do_loop_target_fails _ _ _ _ ans e).
  - destruct n as [|n]; [simpl in Hlen; lia|].
    assert (Hnew : cur ∉ seen) by (apply Hfresh; now left).
    inversion Hwalk as [|origin ans raw rest' Hq Ht Hrest]; subst.
    rewrite (_do_loop_step _ _ _ _ ans raw) by assumption.
    apply NoDup_cons in Hnd as [Hhead Htail].
    rewrite (IH n (chain ++ [rstrip_dot raw]) (rstrip_dot raw) (seen ∪ {[cur]})).
    + now rewrite <- app_assoc.
    + assumption.
    + assumption.
    + intros x Hx. rewrite elem_of_union, elem_of_singleton. intros [Hin| ->].
      * revert Hin. apply Hfresh. now right.
      * apply Hhead. now apply list_elem_of_In.
    + simpl in Hlen. lia.
    + now rewrite last_cons_default in Hfails.
Qed.

(** The loop invariant.  [origin :: chain] is the path walked; all of it
    but its last name, [cur], has been queried, is recorded in [seen] and
    is free of repetition. *)
Lemma _do_loop_invariant (origin : string) n :
  forall chain cur seen,
    cur = List.last (origin :: chain) origin ->
    NoDup (removelast (origin :: chain)) ->
    (forall x, x ∈ seen <-> In x (removelast (origin :: chain))) ->
    exists chain',
      _do_loop w timeout_s n chain cur seen = inr chain'
      /\ (List.length chain' <= List.length chain + n)%nat
      /\ NoDup (removelast (origin :: chain')).
Proof.
  induction n as [|n IH]; intros chain cur seen Hcur Hnd Hseen.
  - exists chain. simpl. repeat split; [lia|assumption].
  - destruct (decide (cur ∈ seen)) as [Hin|Hnew].
    { exists chain. rewrite _do_loop_seen by assumption. repeat split; [lia|assumption]. }
    destruct (dns_resolve w timeout_s cur) as [e|ans] eqn:Hq.
    { exists chain. rewrite (_do_loop_query_fails _ _ _ _ e) by assumption.
      repeat split; [lia|assumption]. }
    destruct (ans_target0 ans) as [e|t] eqn:Ht.
    { exists chain. rewrite (_do_loop_target_fails _ _ _ _ ans e) by assumption.
      repeat split; [lia|assumption]. }
    rewrite (_do_loop_step _ _ _ _ ans t) by assumption.
    assert (Hpath : removelast (origin :: chain ++ [rstrip_dot t]) = origin :: chain).
    { change (origin :: chain ++ [rstrip_dot t]) with ((origin :: chain) ++ [rstrip_dot t]).
      apply removelast_last. }
    assert (Hsplit : origin :: chain = removelast (origin :: chain) ++ [cur]).
    { rewrite Hcur. apply app_removelast_last. discriminate. }
    destruct (IH (chain ++ [rstrip_dot t]) (rstrip_dot t) (seen ∪ {[cur]}))
      as (chain' & Hrun & Hlen & Hnd').
    + change (origin :: chain ++ [rstrip_dot t]) with ((origin :: chain) ++ [rstrip_dot t]).
      now rewrite last_last.
    + rewrite Hpath, Hsplit. apply NoDup_app. repeat split.
      * assumption.
      * intros x Hx Hx'. apply list_elem_of_In in Hx, Hx'.
        destruct Hx' as [<-|[]]. apply Hnew, Hseen. assumption.
      * apply NoDup_singleton.
    + intros x. rewrite Hpath, Hsplit, in_app_iff, elem_of_union, elem_of_singleton, Hseen.
      simpl. intuition.
    + exists chain'. split; [assumption|]. split; [|assumption].
      rewrite length_app in Hlen. simpl in Hlen. lia.
Qed.

(** With a resolver in hand the walk returns a chain, stops within ten
    entries, and the names it queried are pairwise distinct. *)
Lemma _do_loop_spec (domain : string) :
  exists chain,
    _do_loop w timeout_s 10 [] (rstrip_dot domain) ∅ = inr chain
    /\ (List.length chain <= 10)%nat
    /\ NoDup (rstrip_dot domain :: removelast chain).
Proof.
  destruct (_do_loop_invariant (rstrip_dot domain) 10 [] (rstrip_dot domain) ∅)
    as (chain & Hrun & Hlen & Hnd).
  - reflexivity.
  - constructor.
  - intros x. simpl. split; [intros H; now apply not_elem_of_empty in H|tauto].
  - exists chain. split; [assumption|]. split; [simpl in Hlen; lia|].
    destruct chain as [|c chain]; [simpl; apply NoDup_singleton|exact Hnd].
Qed.

(** [resolve_cname_chain] raises only what [Resolver()] raised. *)
Lemma resolve_cname_chain_cases (domain : string) :
  resolve_cname_chain w domain timeout_s
  = match new_resolver w with
    | inl e => inl e
    | inr _ => _do_loop w timeout_s 10 [] (rstrip_dot domain) ∅
    end.
Proof. unfold resolve_cname_chain, _do. now destruct (new_resolver w). Qed.

Lemma resolve_cname_chain_returns (domain : string) :
  match new_resolver w with
  | inl e => resolve_cname_chain w domain timeout_s = inl e
  | inr _ => exists chain, resolve_cname_chain w domain timeout_s = inr chain
  end.
Proof.
  rewrite resolve_cname_chain_cases. destruct (new_resolver w); [reflexivity|].
  destruct (_do_loop_spec domain) as (chain & Hrun & _). now exists chain.
Qed.

Lemma resolve_failure_dns (domain : string) e :
  new_resolver w = inr tt ->
  dns_resolve w timeout_s (rstrip_dot domain) = inl e ->
  resolve_cname_chain w domain timeout_s = inr [].
Proof.
  intros Hr Hq. rewrite resolve_cname_chain_cases, Hr.
  apply (_do_loop_query_fails _ _ _ _ e); [apply not_elem_of_empty|assumption].
Qed.

End Walk.

(** C3 (as amended). For every domain and every behaviour of the DNS
    oracle, a chain returned by [resolve_cname_chain] has at most 10 entries
    and only its last entry can repeat a name: the origin and the entries
    before the last are pairwise distinct.  On a cycle a -> b -> a the chain
    is [b; a], two entries without repetition. *)
Theorem resolve_cname_chain_bounded (w : World) (domain : string) (timeout_s : float)
    (chain : list string) :
  resolve_cname_chain w domain timeout_s = inr chain ->
  (List.length chain <= 10)%nat
  /\ NoDup (rstrip_dot domain :: removelast chain)
  /\ (forall b ans_a ans_b ta tb,
        dns_resolve w timeout_s (rstrip_dot domain) = inr ans_a ->
        ans_target0 ans_a = inr tb -> rstrip_dot tb = b ->
        dns_resolve w timeout_s b = inr ans_b ->
        ans_target0 ans_b = inr ta -> rstrip_dot ta = rstrip_dot domain ->
        b <> rstrip_dot domain ->
        chain = [b; rstrip_dot domain]).
Proof.
  rewrite resolve_cname_chain_cases. destruct (new_resolver w) as [e|[]]; [discriminate|].
  intros Hrun.
  destruct (_do_loop_spec w timeout_s domain) as (chain' & Hrun' & Hlen & Hnd).
  assert (chain' = chain) as -> by congruence.
  split; [assumption|]. split; [assumption|].
  intros b ans_a ans_b ta tb Ha Hta Hb Hqb Htb Hback Hne.
  assert (Hfresh : b ∉ (∅ ∪ {[rstrip_dot domain]} : gset string)).
  { rewrite elem_of_union, elem_of_singleton.
    intros [Hin|Heq]; [now apply not_elem_of_empty in Hin|contradiction]. }
  rewrite (_do_loop_step _ _ _ _ _ _ ans_a tb) in Hrun;
    [|apply not_elem_of_empty|assumption|assumption].
  rewrite Hb in Hrun.
  rewrite (_do_loop_step _ _ _ _ _ _ ans_b ta) in Hrun; [|assumption..].
  rewrite Hback, _do_loop_seen in Hrun; [|set_solver].
  simpl in Hrun. congruence.
Qed.

(** The chain of the cycle a -> b -> a. *)
Lemma resolve_cname_chain_bounded_witness :
  resolve_cname_chain (Samples.world [("a.example", "b.example."); ("b.example", "a.example.")]
                         Samples.get_ok true []) "a.example." 2.5%float
  = inr ["b.example"; "a.example"]
  /\ (List.length ["b.example"; "a.example"] <= 10)%nat
  /\ NoDup ["a.example"; "b.example"].
Proof.
  split; [reflexivity|].
  destruct (resolve_cname_chain_bounded
              (Samples.world [("a.example", "b.example."); ("b.example", "a.example.")]
                 Samples.get_ok true []) "a.example." 2.5%float
              ["b.example"; "a.example"] eq_refl) as (Hlen & Hnd & _).
  split; [exact Hlen|exact Hnd].
Defined.

(** C3, as stated, fails: on a -> b -> c -> b the chain repeats [b]. *)
Lemma resolve_cname_chain_repeats :
  exists chain,
    resolve_cname_chain
      (Samples.world [("a.example", "b.example"); ("b.example", "c.example");
                      ("c.example", "b.example")] Samples.get_ok true [])
      "a.example" 2.5%float = inr chain
    /\ (List.length chain <= 10)%nat
    /\ ~ NoDup chain.
Proof.
  exists ["b.example"; "c.example"; "b.example"].
  split; [vm_compute; reflexivity|]. split; [simpl; lia|].
  intros Hnd. apply NoDup_cons in Hnd as [Hnotin _]. apply Hnotin. set_solver.
Qed.

(** C6. Whenever resolving the current name fails, be it the query or the
    reading of its first target, and whatever the exception,
    [resolve_cname_chain] stops there and returns the chain collected so far:
    if the records lead from the domain through [names], pairwise distinct
    and fewer than ten, and the last of them (the domain itself when [names]
    is empty) does not resolve, the call returns exactly [names].  No such
    failure reaches the caller: with a resolver in hand the call returns a
    chain for every domain and every oracle, and the only exception it lets
    through is one raised by [Resolver()] itself, before any name is
    resolved. *)
Theorem resolve_failure_ends_chain (w : World) (domain : string) (timeout_s : float)
    (names : list string) :
  new_resolver w = inr tt ->
  cname_walk w timeout_s (rstrip_dot domain) names ->
  NoDup (rstrip_dot domain :: names) ->
  (List.length names < 10)%nat ->
  resolution_fails w timeout_s (List.last names (rstrip_dot domain)) ->
  resolve_cname_chain w domain timeout_s = inr names
  /\ (forall w' domain' timeout_s',
        (forall e, resolve_cname_chain w' domain' timeout_s' = inl e ->
                   new_resolver w' = inl e)
        /\ (new_resolver w' = inr tt ->
            exists chain, resolve_cname_chain w' domain' timeout_s' = inr chain)).
Proof.
  intros Hr Hwalk Hnd Hlen Hfails. split.
  - rewrite resolve_cname_chain_cases, Hr.
    apply (_do_loop_follows_walk w timeout_s names 10 [] (rstrip_dot domain) ∅);
      try assumption.
    intros x _. apply not_elem_of_empty.
  - intros w' domain' timeout_s'.
    pose proof (resolve_cname_chain_returns w' timeout_s' domain') as Hret. split.
    + intros e. destruct (new_resolver w') as [e'|[]].
      * rewrite Hret. now intros [= ->].
      * destruct Hret as (chain & ->). discriminate.
    + intros Hr'. now rewrite Hr' in Hret.
Qed.

(** Two hops, then a time-out: the call on [a.example.] returns the two
    names reached, [c.example] being the one whose query timed out. *)
Lemma resolve_failure_ends_chain_witness :
  resolve_cname_chain
    (Samples.with_dns (Samples.world [] Samples.get_ok true []) (inr tt)
       (fun t name =>
          if bool_decide (name = "c.example") then Samples.dns_times_out t name
          else Samples.zone [("a.example", "b.example."); ("b.example", "c.example.")] t name))
    "a.example." 2.5%float
  = inr ["b.example"; "c.example"].
Proof.
  apply (resolve_failure_ends_chain
           (Samples.with_dns (Samples.world [] Samples.get_ok true []) (inr tt)
              (fun t name =>
                 if bool_decide (name = "c.example") then Samples.dns_times_out t name
                 else Samples.zone [("a.example", "b.example."); ("b.example", "c.example.")]
                        t name))
           "a.example." 2.5%float ["b.example"; "c.example"]).
  - reflexivity.
  - apply (walk_cons _ _ "a.example" {| ans_target0 := inr "b.example." |} "b.example.");
      [reflexivity..|].
    apply (walk_cons _ _ "b.example" {| ans_target0 := inr "c.example." |} "c.example.");
      [reflexivity..|].
    constructor.
  - apply (bool_decide_unpack _). vm_compute. exact I.
  - simpl. lia.
  - left. eexists. reflexivity.
Defined.

(* ===================================================================== *)
(** ** The probers and the scan of one domain                             *)
(* ===================================================================== *)

Lemma fetch_http_fingerprint_cases (w : World) (session : Session) (d : string) (t : float) :
  fetch_http_fingerprint w session d t
  = inr match session_get w session ("https://" +:+ d +:+ "/") t with
        | inl e => http_set_error HTTPFingerprint_new (str_exn e)
        | inr resp => http_capture HTTPFingerprint_new resp
        end.
Proof.
  unfold fetch_http_fingerprint.
  destruct (session_get w session ("https://" +:+ d +:+ "/") t) as [e|resp]; simpl.
  - reflexivity.
  - destruct (resp_content_read resp 256) as [e|[]]; reflexivity.
Qed.

Lemma fetch_tls_fingerprint_returns (w : World) (d : string) (t : float) :
  exists fp, fetch_tls_fingerprint w d t = inr fp.
Proof.
  unfold fetch_tls_fingerprint.
  destruct (getaddrinfo w d 443) as [e|[|ip ips]]; [eauto..|].
  destruct (socket_connect w ip 443 t) as [e|[]]; [eauto|].
  destruct (wrap_socket w ip d) as [e|sock]; eauto.
Qed.

Lemma fetch_tls_fingerprint_fails (w : World) (d : string) (t : float) (msg : string) :
  tls_probe_fails w d t msg ->
  exists fp, fetch_tls_fingerprint w d t = inr fp /\ tls_ok fp = false /\ tls_error fp = msg.
Proof.
  unfold fetch_tls_fingerprint.
  intros [e H|H|ip ips e H1 H2|ip ips e H1 H2 H3]; rewrite ?H, ?H1, ?H2, ?H3;
    eexists; (split; [reflexivity|split; reflexivity]).
Qed.

(** The result of a scan, field by field. *)
Lemma scan_domain_eq (w : World) (session : Session) (d : string)
    (t_dns t_http t_tls t_ws : float) (paths : list string) h t :
  fetch_http_fingerprint w session d t_http = inr h ->
  fetch_tls_fingerprint w d t_tls = inr t ->
  scan_domain w session d t_dns t_http t_tls t_ws paths
  = inr (MkRes d (chain_kept (resolve_cname_chain w d t_dns)) h t
           (List.map (probe_one w session d t_ws) paths)
           (compute_signature d (chain_kept (resolve_cname_chain w d t_dns)) h t)
           (cname_errors (resolve_cname_chain w d t_dns) ++ probe_errors h t)).
Proof.
  intros Hh Ht. unfold scan_domain.
  destruct (resolve_cname_chain w d t_dns) as [e|chain]; rewrite Hh, Ht; simpl;
    unfold probe_errors;
    destruct (negb (http_ok h) && Str.truthy (http_error h));
    destruct (negb (tls_ok t) && Str.truthy (tls_error t));
    destruct paths; reflexivity.
Qed.

Lemma scan_domain_returns (w : World) (session : Session) (d : string)
    (t_dns t_http t_tls t_ws : float) (paths : list string) :
  exists h t,
    fetch_http_fingerprint w session d t_http = inr h
    /\ fetch_tls_fingerprint w d t_tls = inr t
    /\ scan_domain w session d t_dns t_http t_tls t_ws paths
       = inr (MkRes d (chain_kept (resolve_cname_chain w d t_dns)) h t
                (List.map (probe_one w session d t_ws) paths)
                (compute_signature d (chain_kept (resolve_cname_chain w d t_dns)) h t)
                (cname_errors (resolve_cname_chain w d t_dns) ++ probe_errors h t)).
Proof.
  destruct (fetch_tls_fingerprint_returns w d t_tls) as (t & Ht).
  eexists _, t. split; [apply fetch_http_fingerprint_cases|]. split; [exact Ht|].
  apply scan_domain_eq; [apply fetch_http_fingerprint_cases|exact Ht].
Qed.

Lemma compute_signature_same_fields d1 d2 c1 c2 h1 h2 t1 t2 :
  same_signature_fields c1 h1 t1 c2 h2 t2 ->
  compute_signature d1 c1 h1 t1 = compute_signature d2 c2 h2 t2.
Proof.
  intros (Hc & Hfh & Hst & Hct & Hsrv & Hvia & Hcache & Hxc & Hxs & Hiss & Halpn).
  unfold compute_signature, signature_parts.
  now rewrite Hc, Hfh, Hst, Hct, Hsrv, Hvia, Hcache, Hxc, Hxs, Hiss, Halpn.
Qed.

(** C1. Two calls of [compute_signature] whose inputs agree on the last
    CNAME target, the final host, the status, content type, server, via,
    cache-control, x-cache and x-served-by headers, the issuer common name
    and the ALPN return the same digest, whatever the domains and the
    earlier chain entries; and so do two scans, whatever their worlds,
    WebSocket paths and probes, clocks and timeouts. *)
Theorem compute_signature_noninterference
    (d1 d2 : string) (c1 c2 : list string)
    (h1 h2 : HTTPFingerprint) (t1 t2 : TLSFingerprint) :
  same_signature_fields c1 h1 t1 c2 h2 t2 ->
  compute_signature d1 c1 h1 t1 = compute_signature d2 c2 h2 t2
  /\ (forall w1 w2 s1 s2 t_dns1 t_http1 t_tls1 t_ws1 t_dns2 t_http2 t_tls2 t_ws2 paths1 paths2 r1 r2,
        scan_domain w1 s1 d1 t_dns1 t_http1 t_tls1 t_ws1 paths1 = inr r1 ->
        scan_domain w2 s2 d2 t_dns2 t_http2 t_tls2 t_ws2 paths2 = inr r2 ->
        cname_chain r1 = c1 -> http r1 = h1 -> tls r1 = t1 ->
        cname_chain r2 = c2 -> http r2 = h2 -> tls r2 = t2 ->
        signature r1 = signature r2).
Proof.
  intros Hsame. split; [now apply compute_signature_same_fields|].
  intros w1 w2 s1 s2 t_dns1 t_http1 t_tls1 t_ws1 t_dns2 t_http2 t_tls2 t_ws2 paths1 paths2 r1 r2 Hr1 Hr2
         Hc1 Hh1 Ht1 Hc2 Hh2 Ht2.
  destruct (scan_domain_returns w1 s1 d1 t_dns1 t_http1 t_tls1 t_ws1 paths1) as (h & t & _ & _ & E1).
  destruct (scan_domain_returns w2 s2 d2 t_dns2 t_http2 t_tls2 t_ws2 paths2) as (h' & t' & _ & _ & E2).
  rewrite E1 in Hr1. rewrite E2 in Hr2.
  injection Hr1 as <-. injection Hr2 as <-. simpl in *. subst.
  now apply compute_signature_same_fields.
Qed.

(** Two domains behind the same edge: different names, different chains
    with the same end, different URLs and peers. *)
Lemma compute_signature_noninterference_witness :
  compute_signature "a.example" ["a.lb.example"; "Edge.CDN.example"] Samples.http_a Samples.tls_a
  = compute_signature "b.example" ["edge.cdn.example"; "Edge.CDN.example"] Samples.http_b Samples.tls_b.
Proof.
  apply (compute_signature_noninterference
           "a.example" "b.example" ["a.lb.example"; "Edge.CDN.example"]
           ["edge.cdn.example"; "Edge.CDN.example"]
           Samples.http_a Samples.http_b Samples.tls_a Samples.tls_b).
  repeat split; reflexivity.
Defined.

(* ===================================================================== *)
(** ** C2: what is hashed                                                 *)
(* ===================================================================== *)






(* ===================================================================== *)
(** ** C4: failures stay inside their probe                               *)
(* ===================================================================== *)

Lemma probe_one_fails (w : World) (session : Session) (d : string) (t_ws : float) (p : string) e :
  ws_connect w session (wss_url d p) t_ws = inl e ->
  ws_url (probe_one w session d t_ws p) = wss_url d p
  /\ ws_ok (probe_one w session d t_ws p) = false
  /\ ws_error (probe_one w session d t_ws p) = str_exn e.
Proof.
  unfold probe_one, wss_url. intros Hws.
  destruct (loop_time w _) as [start stop]. rewrite Hws. repeat split.
Qed.

(** C4 (as amended). [scan_domain] returns a result for every world: it
    never raises, and every probe is run whatever the earlier ones did.  A
    failure of the HTTP, TLS or a WebSocket probe is recorded as the message
    of its exception on the fingerprint or probe that owns it, with the flag
    left false, and the HTTP and TLS messages that are not empty are appended
    to the error list.  For DNS, an exception out of [resolve_cname_chain]
    (the resolver could not be set up) is appended to the error list, while a
    name that fails to resolve only ends the chain and leaves no entry.  A
    domain whose TLS probe fails while its GET is answered has [http.ok] set,
    [tls.ok] unset, the message in [tls.error], and the signature computed
    from the fields collected. *)
Theorem scan_domain_isolates_failures (w : World) (session : Session) (d : string)
    (t_dns t_http t_tls t_ws : float) (paths : list string) :
  exists res,
    scan_domain w session d t_dns t_http t_tls t_ws paths = inr res
    /\ cname_chain res = chain_kept (resolve_cname_chain w d t_dns)
    /\ fetch_http_fingerprint w session d t_http = inr (http res)
    /\ fetch_tls_fingerprint w d t_tls = inr (tls res)
    /\ websockets res = List.map (probe_one w session d t_ws) paths
    /\ signature res = compute_signature d (cname_chain res) (http res) (tls res)
    /\ errors res = cname_errors (resolve_cname_chain w d t_dns)
                    ++ probe_errors (http res) (tls res)
    /\ (forall e, new_resolver w = inl e ->
          cname_chain res = [] /\ In ("cname: " +:+ str_exn e) (errors res))
    /\ (forall e, new_resolver w = inr tt ->
          dns_resolve w t_dns (rstrip_dot d) = inl e ->
          cname_chain res = [] /\ errors res = probe_errors (http res) (tls res))
    /\ (forall e, session_get w session ("https://" +:+ d +:+ "/") t_http = inl e ->
          http_ok (http res) = false /\ http_error (http res) = str_exn e)
    /\ (forall msg, tls_probe_fails w d t_tls msg ->
          tls_ok (tls res) = false /\ tls_error (tls res) = msg)
    /\ (forall p e, In p paths -> ws_connect w session (wss_url d p) t_ws = inl e ->
          exists probe, In probe (websockets res)
            /\ ws_url probe = wss_url d p /\ ws_ok probe = false
            /\ ws_error probe = str_exn e)
    /\ (forall resp msg,
          session_get w session ("https://" +:+ d +:+ "/") t_http = inr resp ->
          tls_probe_fails w d t_tls msg ->
          http_ok (http res) = true /\ tls_ok (tls res) = false
          /\ tls_error (tls res) = msg
          /\ signature res = compute_signature d (cname_chain res) (http res) (tls res)).
Proof.
  destruct (scan_domain_returns w session d t_dns t_http t_tls t_ws paths) as (h & t & Hh & Ht & Hscan).
  eexists. split; [exact Hscan|]. simpl.
  assert (Htls : forall msg, tls_probe_fails w d t_tls msg -> tls_ok t = false /\ tls_error t = msg).
  { intros msg Hfail.
    destruct (fetch_tls_fingerprint_fails w d t_tls msg Hfail) as (fp & Hfp & Hok & Herr).
    rewrite Ht in Hfp. injection Hfp as ->. now split. }
  assert (Hget_fails : forall e,
            session_get w session ("https://" +:+ d +:+ "/") t_http = inl e ->
            http_ok h = false /\ http_error h = str_exn e).
  { intros e Hget. rewrite fetch_http_fingerprint_cases, Hget in Hh.
    injection Hh as <-. now split. }
  assert (Hget_ok : forall resp,
            session_get w session ("https://" +:+ d +:+ "/") t_http = inr resp ->
            http_ok h = true).
  { intros resp Hget. rewrite fetch_http_fingerprint_cases, Hget in Hh.
    now injection Hh as <-. }
  split; [reflexivity|]. split; [exact Hh|]. split; [exact Ht|].
  split; [reflexivity|]. split; [reflexivity|]. split; [reflexivity|].
  split; [|split].
  - intros e Hr. rewrite resolve_cname_chain_cases, Hr. simpl. split; [reflexivity|now left].
  - intros e Hr Hq.
    rewrite (resolve_failure_dns w t_dns d e Hr Hq). split; reflexivity.
  - split; [exact Hget_fails|]. split; [exact Htls|]. split.
    + intros p e Hin Hws. exists (probe_one w session d t_ws p).
      split; [now apply in_map|]. now apply probe_one_fails.
    + intros resp msg Hget Hfail. destruct (Htls msg Hfail) as [Hok Herr].
      split; [now apply (Hget_ok resp)|]. split; [exact Hok|]. split; [exact Herr|reflexivity].
Qed.

(** A handshake refused after a GET that was answered. *)
Lemma scan_domain_isolates_failures_witness :
  exists res,
    scan_domain (Samples.world [] Samples.get_ok false []) Samples.session "www.example"
      2.5%float 8%float 5%float 6%float ["/"; "ws"] = inr res
    /\ http_ok (http res) = true /\ tls_ok (tls res) = false
    /\ tls_error (tls res) = "[SSL: TLSV1_ALERT_INTERNAL_ERROR] tlsv1 alert internal error"
    /\ signature res = compute_signature "www.example" (cname_chain res) (http res) (tls res).
Proof.
  destruct (scan_domain_isolates_failures (Samples.world [] Samples.get_ok false [])
              Samples.session "www.example" 2.5%float 8%float 5%float 6%float ["/"; "ws"])
    as (res & Hscan & _ & _ & _ & _ & _ & _ & _ & _ & _ & _ & _ & Hpartial).
  exists res. split; [exact Hscan|].
  apply (Hpartial (Samples.response_200 "www.example")
           "[SSL: TLSV1_ALERT_INTERNAL_ERROR] tlsv1 alert internal error").
  - reflexivity.
  - apply (tls_fails_handshake _ _ _ "192.0.2.7" []
             (Raise_ SSLError "[SSL: TLSV1_ALERT_INTERNAL_ERROR] tlsv1 alert internal error"));
      reflexivity.
Defined.

(** C4, as stated, fails: every DNS query runs into the timeout, and the
    failure is recorded nowhere; the error list stays empty. *)
Lemma scan_domain_drops_dns_failure :
  exists e res,
    dns_resolve (Samples.with_dns (Samples.world [] Samples.get_ok true []) (inr tt)
                   Samples.dns_times_out) 2.5%float "www.example" = inl e
    /\ scan_domain (Samples.with_dns (Samples.world [] Samples.get_ok true []) (inr tt)
                      Samples.dns_times_out) Samples.session "www.example"
         2.5%float 8%float 5%float 6%float [] = inr res
    /\ cname_chain res = []
    /\ errors res = [].
Proof.
  eexists _, _. split; [reflexivity|]. split; [vm_compute; reflexivity|]. split; reflexivity.
Qed.

(* ===================================================================== *)
(** ** C5: the outcome of the HTTP probe                                  *)
(* ===================================================================== *)

Lemma http_capture_headers (fp : HTTPFingerprint) (resp : Response) :
  Forall (fun fk => fst fk (http_capture fp resp) = headers_get (resp_headers resp) (snd fk))
         curated_headers.
Proof. unfold curated_headers. repeat constructor. Qed.

(** C5 (as amended). [fetch_http_fingerprint] returns a fingerprint for
    every outcome of the GET.  When the GET raises, the fingerprint is the
    default one, success false and every other field at its zero value, with
    the message of the exception as its error string.  When the GET is
    answered, success is set with the status, the error string is empty, and
    each curated field is the header it is read from, or the empty string when
    the response lacks it.  Success with status and a non-empty error string
    never hold together, and exactly one of them holds unless the exception
    had an empty message, which leaves the default fingerprint. *)
Theorem fetch_http_fingerprint_outcome (w : World) (session : Session) (d : string)
    (timeout_s : float) :
  exists fp,
    fetch_http_fingerprint w session d timeout_s = inr fp
    /\ (forall e, session_get w session ("https://" +:+ d +:+ "/") timeout_s = inl e ->
          fp = http_set_error HTTPFingerprint_new (str_exn e)
          /\ http_ok fp = false /\ http_status fp = None /\ http_error fp = str_exn e)
    /\ (forall resp, session_get w session ("https://" +:+ d +:+ "/") timeout_s = inr resp ->
          http_ok fp = true /\ http_status fp = Some (resp_status resp) /\ http_error fp = ""
          /\ Forall (fun fk => fst fk fp = headers_get (resp_headers resp) (snd fk)
                               /\ (resp_headers resp !! snd fk = None -> fst fk fp = ""))
                    curated_headers)
    /\ ~ (http_success fp /\ http_has_error fp)
    /\ (exactly_one_of_success_or_error fp
        \/ exists e, session_get w session ("https://" +:+ d +:+ "/") timeout_s = inl e
                     /\ str_exn e = "" /\ fp = HTTPFingerprint_new).
Proof.
  eexists. split; [apply fetch_http_fingerprint_cases|].
  destruct (session_get w session ("https://" +:+ d +:+ "/") timeout_s) as [e|resp].
  - split; [|split; [|split]].
    + intros e' [= <-]. repeat split.
    + intros resp [=].
    + intros [[Hok _] _]. discriminate Hok.
    + destruct (decide (str_exn e = "")) as [Hempty|Hmsg].
      * right. exists e. split; [reflexivity|]. split; [exact Hempty|].
        now rewrite Hempty.
      * left. right. split; [|exact Hmsg]. intros [Hok _]. discriminate Hok.
  - split; [|split; [|split]].
    + intros e [=].
    + intros resp' [= <-]. repeat split.
      eapply Forall_impl; [apply (http_capture_headers HTTPFingerprint_new resp)|].
      simpl. intros fk ->. split; [reflexivity|]. unfold headers_get. now intros ->.
    + intros [_ Herr]. now apply Herr.
    + left. left. split; [split; [reflexivity|eexists; reflexivity]|].
      intros Herr. now apply Herr.
Qed.

(** A refused connection leaves its message and nothing else. *)
Lemma fetch_http_fingerprint_outcome_witness :
  exists fp,
    fetch_http_fingerprint
      (Samples.world [] (fun _ => inl Samples.unreachable) true []) Samples.session
      "www.example" 8%float = inr fp
    /\ fp = http_set_error HTTPFingerprint_new "Network is unreachable"
    /\ exactly_one_of_success_or_error fp.
Proof.
  destruct (fetch_http_fingerprint_outcome
              (Samples.world [] (fun _ => inl Samples.unreachable) true []) Samples.session
              "www.example" 8%float) as (fp & Hfetch & Hfail & _ & _ & Hone).
  exists fp. split; [exact Hfetch|].
  destruct (Hfail Samples.unreachable eq_refl) as (Hfp & _). split; [exact Hfp|].
  destruct Hone as [Hone|(e & Hget & Hempty & _)]; [exact Hone|].
  injection Hget as <-. discriminate Hempty.
Defined.

(** C5, as stated, fails: a GET cut by the timeout raises an exception
    whose message is empty, and the fingerprint shows neither success nor an
    error. *)
Lemma fetch_http_fingerprint_timeout_shows_neither :
  exists fp,
    fetch_http_fingerprint (Samples.world [] Samples.get_timeout true []) Samples.session
      "www.example" 8%float = inr fp
    /\ http_ok fp = false /\ http_error fp = ""
    /\ ~ exactly_one_of_success_or_error fp.
Proof.
  eexists. split; [vm_compute; reflexivity|]. split; [reflexivity|]. split; [reflexivity|].
  intros [[[Hok _] _]|[_ Herr]]; [discriminate Hok|now apply Herr].
Qed.

(* ===================================================================== *)
(** ** C7: grouping and ranking                                           *)
(* ===================================================================== *)

Section DictFacts.
Context {V : Type}.
Implicit Types (d : list (string * V)) (k : string).

Lemma dict_get_upsert k k' dflt (f : V -> V) d :
  dict_get k' (dict_upsert k dflt f d)
  = if decide (k' = k) then Some (f (default dflt (dict_get k d))) else dict_get k' d.
Proof.
  induction d as [|[k0 v] d IH]; simpl.
  - destruct (decide (k = k')), (decide (k' = k)); congruence.
  - destruct (decide (k0 = k)) as [->|Hne]; simpl.
    + destruct (decide (k = k')), (decide (k' = k)); congruence.
    + rewrite IH. destruct (decide (k0 = k')), (decide (k' = k)); congruence.
Qed.

Lemma dict_keys_upsert k dflt (f : V -> V) d :
  List.map fst (dict_upsert k dflt f d)
  = if decide (k ∈ List.map fst d) then List.map fst d else List.map fst d ++ [k].
Proof.
  induction d as [|[k0 v] d IH]; simpl.
  - destruct (decide (k ∈ [])) as [Hin|_]; [inversion Hin|reflexivity].
  - destruct (decide (k0 = k)) as [->|Hne]; simpl.
    + destruct (decide (k ∈ k :: List.map fst d)) as [_|Hout]; [reflexivity|].
      exfalso. apply Hout. left.
    + rewrite IH. destruct (decide (k ∈ List.map fst d)) as [Hin|Hout];
        destruct (decide (k ∈ k0 :: List.map fst d)) as [Hin'|Hout']; try reflexivity.
      * exfalso. apply Hout'. now right.
      * exfalso. apply elem_of_cons in Hin' as [->|Hin']; [now apply Hne|now apply Hout].
Qed.

Lemma dict_get_keys k d : k ∈ List.map fst d <-> is_Some (dict_get k d).
Proof.
  induction d as [|[k0 v] d IH]; simpl.
  - split; [intros Hin; inversion Hin|intros [v Hv]; discriminate].
  - destruct (decide (k0 = k)) as [->|Hne].
    + split; [eexists; reflexivity|intros _; left].
    + rewrite <- IH. rewrite elem_of_cons. split; [intros [->|Hin]; [contradiction|assumption]|now right].
Qed.

Lemma dict_get_elem_of k v d :
  NoDup (List.map fst d) -> ((k, v) ∈ d <-> dict_get k d = Some v).
Proof.
  induction d as [|[k0 v0] d IH]; simpl; intros Hnd.
  - split; [intros Hin; inversion Hin|discriminate].
  - apply NoDup_cons in Hnd as [Hout Hnd]. rewrite elem_of_cons.
    destruct (decide (k0 = k)) as [->|Hne].
    + split.
      * intros [[= ->]|Hin]; [reflexivity|].
        exfalso. apply Hout. apply list_elem_of_fmap. now exists (k, v).
      * intros [= ->]. now left.
    + rewrite <- (IH Hnd). split; [intros [[= -> ->]|Hin]; [contradiction|assumption]|now right].
Qed.

End DictFacts.

Section FirstSeen.
Implicit Types (s : string) (r : DomainScanResult) (pre results : list DomainScanResult).

Lemma first_seen_le s results : (first_seen s results <= List.length results)%nat.
Proof.
  induction results as [|r results IH]; simpl; [lia|].
  destruct (decide (signature r = s)); lia.
Qed.

(** A signature has been met when some result carries it. *)
Lemma first_seen_lt s results :
  (first_seen s results < List.length results)%nat <-> with_signature s results <> [].
Proof.
  unfold with_signature. induction results as [|r results IH]; simpl.
  - split; [lia|congruence].
  - destruct (decide (signature r = s)) as [Heq|Hne].
    + rewrite bool_decide_eq_true_2 by assumption. split; [discriminate|lia].
    + rewrite bool_decide_eq_false_2 by assumption. rewrite <- IH. lia.
Qed.

Lemma first_seen_app s pre results :
  first_seen s (pre ++ results)
  = if decide (first_seen s pre < List.length pre)%nat then first_seen s pre
    else (List.length pre + first_seen s results)%nat.
Proof.
  induction pre as [|r pre IH]; simpl.
  - destruct (decide (0 < 0)%nat); [lia|reflexivity].
  - destruct (decide (signature r = s)).
    + destruct (decide (0 < S (List.length pre))%nat); [reflexivity|lia].
    + rewrite IH.
      destruct (decide (first_seen s pre < List.length pre)%nat);
        destruct (decide (S (first_seen s pre) < S (List.length pre))%nat); lia.
Qed.

Lemma with_signature_snoc s pre r :
  with_signature s (pre ++ [r])
  = with_signature s pre ++ (if decide (signature r = s) then [r] else []).
Proof.
  unfold with_signature. rewrite List.filter_app. simpl.
  destruct (decide (signature r = s)) as [Heq|Hne].
  - now rewrite bool_decide_eq_true_2.
  - now rewrite bool_decide_eq_false_2.
Qed.

End FirstSeen.

Lemma StronglySorted_impl_elem_of {A} (R R' : A -> A -> Prop) (l : list A) :
  (forall a b, a ∈ l -> b ∈ l -> R a b -> R' a b) ->
  StronglySorted R l -> StronglySorted R' l.
Proof.
  induction l as [|x l IH]; intros Himpl Hs; [constructor|].
  apply StronglySorted_cons in Hs as [Hall Hs]. apply StronglySorted_cons. split.
  - rewrite Forall_forall in *. intros b Hb. apply Himpl; [left|now right|now apply Hall].
  - apply IH; [|assumption]. intros a b Ha Hb. apply Himpl; now right.
Qed.

Lemma groups_invariant_key_met pre g s :
  groups_invariant pre g -> s ∈ List.map fst g ->
  (first_seen s pre < List.length pre)%nat.
Proof.
  intros [_ Hget] Hin. apply first_seen_lt. apply dict_get_keys in Hin as [rs Hrs].
  rewrite Hget in Hrs. destruct (with_signature s pre); [discriminate|discriminate].
Qed.

Lemma groups_invariant_step pre g r :
  groups_invariant pre g ->
  groups_invariant (pre ++ [r]) (dict_upsert (signature r) [] (fun rs => rs ++ [r]) g).
Proof.
  intros Hinv. pose proof Hinv as [Hsorted Hget]. split.
  - assert (Hold : StronglySorted
                     (fun s1 s2 => (first_seen s1 (pre ++ [r]) < first_seen s2 (pre ++ [r]))%nat)
                     (List.map fst g)).
    { eapply StronglySorted_impl_elem_of; [|exact Hsorted].
      intros a b Ha Hb Hab. simpl in Hab |- *.
      pose proof (groups_invariant_key_met pre g a Hinv Ha).
      pose proof (groups_invariant_key_met pre g b Hinv Hb).
      rewrite !first_seen_app.
      destruct (decide (first_seen a pre < List.length pre)%nat);
        destruct (decide (first_seen b pre < List.length pre)%nat); lia. }
    rewrite dict_keys_upsert.
    destruct (decide (signature r ∈ List.map fst g)) as [Hin|Hout]; [exact Hold|].
    apply StronglySorted_app_2; [|exact Hold|repeat constructor].
    intros a b Ha Hb. apply list_elem_of_singleton in Hb as ->.
    pose proof (groups_invariant_key_met pre g a Hinv Ha) as Hmet.
    assert (Hnew : first_seen (signature r) pre = List.length pre).
    { pose proof (first_seen_le (signature r) pre) as Hle.
      destruct (decide (first_seen (signature r) pre < List.length pre)%nat) as [Hlt|]; [|lia].
      exfalso. apply Hout. apply dict_get_keys. rewrite Hget.
      apply first_seen_lt in Hlt. destruct (with_signature (signature r) pre); [congruence|eauto]. }
    rewrite !first_seen_app.
    destruct (decide (first_seen a pre < List.length pre)%nat); [|lia].
    destruct (decide (first_seen (signature r) pre < List.length pre)%nat); lia.
  - intros s. rewrite dict_get_upsert, with_signature_snoc.
    destruct (decide (s = signature r)) as [->|Hne].
    + destruct (decide (signature r = signature r)); [|congruence].
      rewrite Hget. destruct (with_signature (signature r) pre); reflexivity.
    + destruct (decide (signature r = s)); [congruence|].
      rewrite app_nil_r. apply Hget.
Qed.

Lemma groups_invariant_fold results :
  forall pre g,
    groups_invariant pre g ->
    groups_invariant (pre ++ results)
      (List.fold_left
         (fun groups r => dict_upsert (signature r) [] (fun rs => rs ++ [r]) groups)
         results g).
Proof.
  induction results as [|r results IH]; intros pre g Hinv; simpl.
  - now rewrite app_nil_r.
  - replace (pre ++ r :: results) with ((pre ++ [r]) ++ results)
      by (now rewrite <- app_assoc).
    apply IH. now apply groups_invariant_step.
Qed.

Lemma groups_of_invariant results : groups_invariant results (groups_of results).
Proof.
  apply (groups_invariant_fold results [] []). split; [constructor|reflexivity].
Qed.

Section SortFacts.
Context {A : Type} (key pos : A -> nat).

Lemma insert_reverse_Permutation (x : A) (l : list A) :
  Permutation (insert_reverse key x l) (x :: l).
Proof.
  induction l as [|y l IH]; simpl; [reflexivity|].
  destruct (key y <=? key x)%nat; [reflexivity|].
  rewrite IH. apply perm_swap.
Qed.

Lemma sorted_reverse_Permutation (l : list A) : Permutation (sorted_reverse key l) l.
Proof.
  induction l as [|x l IH]; simpl; [reflexivity|].
  now rewrite insert_reverse_Permutation, IH.
Qed.

(** Inserting an item that stood before all the others keeps the order. *)
Lemma insert_reverse_sorted (x : A) (l : list A) :
  StronglySorted (key_then_pos key pos) l ->
  Forall (fun b => (pos x < pos b)%nat) l ->
  StronglySorted (key_then_pos key pos) (insert_reverse key x l).
Proof.
  induction l as [|y l IH]; simpl; intros Hs Hpos.
  - repeat constructor.
  - apply StronglySorted_cons in Hs as [Hy Hs].
    apply Forall_cons in Hpos as [Hxy Hpos].
    destruct (key y <=? key x)%nat eqn:Hle.
    + apply Nat.leb_le in Hle. apply StronglySorted_cons. split.
      * apply Forall_cons. split.
        { unfold key_then_pos. lia. }
        rewrite Forall_forall in *. intros b Hb.
        specialize (Hy b Hb). specialize (Hpos b Hb). unfold key_then_pos in *. lia.
      * apply StronglySorted_cons. now split.
    + apply Nat.leb_gt in Hle. apply StronglySorted_cons. split.
      * rewrite insert_reverse_Permutation. apply Forall_cons. split; [|assumption].
        unfold key_then_pos. lia.
      * now apply IH.
Qed.

Lemma sorted_reverse_sorted (l : list A) :
  StronglySorted (fun a b => (pos a < pos b)%nat) l ->
  StronglySorted (key_then_pos key pos) (sorted_reverse key l).
Proof.
  induction l as [|x l IH]; simpl; intros Hs; [constructor|].
  apply StronglySorted_cons in Hs as [Hx Hs].
  apply insert_reverse_sorted; [now apply IH|].
  now rewrite sorted_reverse_Permutation.
Qed.

End SortFacts.

Lemma StronglySorted_map_inv {A B} (f : A -> B) (R : B -> B -> Prop) (l : list A) :
  StronglySorted R (List.map f l) -> StronglySorted (fun a b => R (f a) (f b)) l.
Proof.
  induction l as [|x l IH]; simpl; intros Hs; [constructor|].
  apply StronglySorted_cons in Hs as [Hx Hs]. apply StronglySorted_cons. split.
  - rewrite Forall_forall in Hx. rewrite Forall_forall. intros b Hb.
    apply Hx. now apply list_elem_of_fmap_2.
  - now apply IH.
Qed.

Lemma StronglySorted_lt_NoDup {A} (f : A -> nat) (l : list A) :
  StronglySorted (fun a b => (f a < f b)%nat) l -> NoDup l.
Proof.
  induction l as [|x l IH]; intros Hs; [constructor|].
  apply StronglySorted_cons in Hs as [Hx Hs]. apply NoDup_cons. split; [|now apply IH].
  intros Hin. rewrite Forall_forall in Hx. specialize (Hx x Hin). simpl in Hx. lia.
Qed.

Lemma StronglySorted_split {A} (R : A -> A -> Prop) (l1 l2 l3 : list A) (a b : A) :
  StronglySorted R (l1 ++ a :: l2 ++ b :: l3) -> R a b.
Proof.
  intros Hs. apply StronglySorted_app_1_r in Hs.
  apply StronglySorted_cons in Hs as [Ha _]. rewrite Forall_forall in Ha.
  apply Ha. apply elem_of_app. right. left.
Qed.

Lemma group_by_signature_sorted (results : list DomainScanResult) :
  StronglySorted (ranked results) (group_by_signature results).
Proof.
  destruct (groups_of_invariant results) as [Hkeys _].
  apply (sorted_reverse_sorted members (fun g => first_seen (fst g) results)).
  now apply StronglySorted_map_inv in Hkeys.
Qed.

Lemma group_by_signature_elem_of (results : list DomainScanResult) s rs :
  (s, rs) ∈ group_by_signature results <-> rs = with_signature s results /\ rs <> [].
Proof.
  destruct (groups_of_invariant results) as [Hkeys Hget].
  unfold group_by_signature. rewrite sorted_reverse_Permutation.
  rewrite dict_get_elem_of by (now apply StronglySorted_lt_NoDup in Hkeys).
  rewrite Hget. destruct (with_signature s results) as [|r0 rs0].
  - split; [discriminate|intros [-> Hne]; congruence].
  - split; [intros [= <-]; split; [reflexivity|discriminate]|intros [-> _]; reflexivity].
Qed.

(** C7. [group_by_signature] puts every result into the group of its
    signature, one group per signature, the members in input order; the
    groups come out by member count, largest first, and two groups of the
    same size come out in the order in which their signatures were first met
    in the input. *)
Theorem group_by_signature_ranked (results : list DomainScanResult) :
  NoDup (List.map fst (group_by_signature results))
  /\ (forall s rs, In (s, rs) (group_by_signature results)
                   <-> rs = with_signature s results /\ rs <> [])
  /\ (forall r, In r results ->
        exists rs, In (signature r, rs) (group_by_signature results) /\ In r rs)
  /\ StronglySorted (fun g1 g2 => (members g2 <= members g1)%nat) (group_by_signature results)
  /\ (forall l1 g1 l2 g2 l3,
        group_by_signature results = l1 ++ g1 :: l2 ++ g2 :: l3 ->
        members g1 = members g2 ->
        (first_seen (fst g1) results < first_seen (fst g2) results)%nat).
Proof.
  split; [|split; [|split; [|split]]].
  - destruct (groups_of_invariant results) as [Hkeys _].
    apply StronglySorted_lt_NoDup in Hkeys. unfold group_by_signature.
    now rewrite sorted_reverse_Permutation.
  - intros s rs. rewrite <- list_elem_of_In. apply group_by_signature_elem_of.
  - intros r Hin. exists (with_signature (signature r) results).
    assert (Hmember : In r (with_signature (signature r) results)).
    { unfold with_signature. apply List.filter_In. split; [assumption|].
      now apply bool_decide_eq_true_2. }
    split; [|assumption].
    rewrite <- list_elem_of_In. apply group_by_signature_elem_of.
    split; [reflexivity|]. intros Hnil. now rewrite Hnil in Hmember.
  - eapply StronglySorted_impl_elem_of; [|apply group_by_signature_sorted].
    intros a b _ _ Hab. unfold ranked, key_then_pos in Hab. lia.
  - intros l1 g1 l2 g2 l3 Hout Hsize.
    pose proof (group_by_signature_sorted results) as Hs. rewrite Hout in Hs.
    apply StronglySorted_split in Hs. unfold ranked, key_then_pos in Hs. lia.
Qed.

(** Two groups of two and one of one: the tie goes to the signature met
    first, [9f3c] before [02ab], although [02ab] was completed first. *)
Example group_by_signature_tie :
  List.map (fun g => (fst g, List.map domain (snd g)))
    (group_by_signature
       [ Samples.scanned "a.example" "9f3c"; Samples.scanned "b.example" "77d0";
         Samples.scanned "c.example" "02ab"; Samples.scanned "d.example" "02ab";
         Samples.scanned "e.example" "9f3c" ])
  = [ ("9f3c", ["a.example"; "e.example"]); ("02ab", ["c.example"; "d.example"]);
      ("77d0", ["b.example"]) ].
Proof. reflexivity. Qed.

(* ===================================================================== *)
(** ** C8: the normalizer                                                 *)
(* ===================================================================== *)

Section Normalizer.
Variable k : Url.Checks.

(** The examples of section 8 of the specification. *)
Example normalization_examples :
  _norm_domain k "https://Example.com:8443/path" = inr (Some "example.com")
  /\ _norm_domain k "  # comment" = inr None
  /\ _norm_domain k "" = inr None
  /\ _norm_domain k "sub.example.org/" = inr (Some "sub.example.org").
Proof. repeat split; reflexivity. Qed.

(** Blank lines and comments give nothing. *)
Lemma _norm_domain_blank_or_comment (line : string) :
  Strip.strip Strip.is_space line = "" \/ String.prefix "#" (Strip.strip Strip.is_space line) = true ->
  _norm_domain k line = inr None.
Proof.
  unfold _norm_domain. intros [-> | ->]; [reflexivity|].
  now rewrite orb_true_r.
Qed.

(** A line without a scheme separator is never handed to [urlparse] and
    always gives a result or nothing. *)
Lemma _norm_domain_plain_returns (line : string) :
  Url.contains "://" (Strip.strip Strip.is_space line) = false ->
  exists r, _norm_domain k line = inr r.
Proof.
  unfold _norm_domain. intros ->.
  destruct (negb _ || _); eexists; reflexivity.
Qed.

(** With a scheme separator, the line gives what [urlparse] gives: its
    exception when it raises. *)
Lemma _norm_domain_url_raises (line : string) e :
  Str.truthy (Strip.strip Strip.is_space line) = true ->
  String.prefix "#" (Strip.strip Strip.is_space line) = false ->
  Url.contains "://" (Strip.strip Strip.is_space line) = true ->
  Url.hostname k (Strip.strip Strip.is_space line) = inl e ->
  _norm_domain k line = inl e.
Proof.
  unfold _norm_domain. intros -> -> -> ->. reflexivity.
Qed.

End Normalizer.

(** C8 (the code falls short of it). The line [http://[] is neither
    blank nor a comment; [urlparse] rejects its unmatched bracket with a
    [ValueError], which [_norm_domain] lets through to [read_domains], to
    [scan_action] and out of the program. *)
Theorem norm_domain_surfaces_value_error (k : Url.Checks) :
  _norm_domain k "http://[" = inl (Raise_ ValueError "Invalid IPv6 URL")
  /\ (forall w path lines,
        fs_read w path = inr ("example.com" :: "http://[" :: lines) ->
        read_domains w k path = inl (Raise_ ValueError "Invalid IPv6 URL"))
  /\ (forall w rt args lines,
        url_checks rt = k ->
        fs_read w (domains_file args) = inr ("example.com" :: "http://[" :: lines) ->
        main w rt (Some args) = Traceback (Raise_ ValueError "Invalid IPv6 URL")).
Proof.
  split; [reflexivity|]. split.
  - intros w path lines Hread. unfold read_domains. rewrite Hread. reflexivity.
  - intros w rt args lines Hk Hread. unfold main, scan_action, read_domains.
    rewrite Hk, Hread. reflexivity.
Qed.

(* ===================================================================== *)
(** ** C9: how the scan ends                                              *)
(* ===================================================================== *)

Lemma insert_reverse_length {A} (key : A -> nat) (x : A) (l : list A) :
  List.length (insert_reverse key x l) = S (List.length l).
Proof.
  induction l as [|y l IH]; simpl; [reflexivity|].
  destruct (key y <=? key x)%nat; simpl; [reflexivity|]. now rewrite IH.
Qed.

Lemma sorted_reverse_length {A} (key : A -> nat) (l : list A) :
  List.length (sorted_reverse key l) = List.length l.
Proof.
  induction l as [|x l IH]; simpl; [reflexivity|].
  now rewrite insert_reverse_length, IH.
Qed.

Lemma as_completed_length {A} (rt : Runtime) (l : list A) :
  List.length (as_completed rt l) = List.length l.
Proof.
  unfold as_completed.
  now rewrite length_map, length_rev, sorted_reverse_length, length_rev,
    length_combine, length_seq, Nat.min_id.
Qed.

Lemma for_each_returns {A B} (f : A -> result B) (l : list A) :
  (forall a, exists b, f a = inr b) ->
  exists bs, for_each f l = inr bs /\ List.length bs = List.length l.
Proof.
  intros Hf. induction l as [|a l (bs & Hbs & Hlen)]; simpl.
  - now exists [].
  - destruct (Hf a) as (b & Hb). rewrite Hb, Hbs. simpl.
    exists (b :: bs). simpl. now rewrite Hlen.
Qed.

Lemma for_each_length {A B} (f : A -> result B) (l : list A) bs :
  for_each f l = inr bs -> List.length bs = List.length l.
Proof.
  revert bs. induction l as [|a l IH]; simpl; intros bs.
  - now intros [= <-].
  - destruct (f a) as [e|b]; simpl; [discriminate|].
    destruct (for_each f l) as [e|bs']; simpl; [discriminate|].
    intros [= <-]. simpl. now rewrite (IH bs').
Qed.

(** C9 (as amended). [scan_action] returns 0 whenever it completes a
    scan, and does complete one when the domain list is not empty, the
    concurrency is positive and the output files can be written.  When the
    domain list is empty after normalization it returns 2 without scanning,
    the status that an argument error also exits with; only the message on
    standard error tells the two apart. *)
Theorem scan_action_exit_status (w : World) (rt : Runtime) (args : Namespace)
    (domains : list string) :
  read_domains w (url_checks rt) (domains_file args) = inr domains ->
  (domains = [] ->
     scan_action w rt args
     = inr (Done {| run_status := 2; run_stderr := ["No domains found."];
                    run_results := []; run_grouped := [] |})
     /\ main w rt (Some args) = Exit 2
     /\ main w rt None = Exit 2)
  /\ (domains <> [] ->
      forall run, scan_action w rt args = inr (Done run) ->
        run_status run = 0%Z /\ List.length (run_results run) = List.length domains)
  /\ (domains <> [] -> (0 < concurrency args)%Z ->
      (forall path lines, fs_write w path lines = inr tt) ->
      exists run, scan_action w rt args = inr (Done run)
        /\ run_status run = 0%Z
        /\ main w rt (Some args) = Exit 0).
Proof.
  intros Hread. unfold main, scan_action. rewrite Hread. cbn -[for_each].
  split; [|split].
  - intros ->. repeat split.
  - intros Hne run. destruct domains as [|d0 ds]; [contradiction|].
    destruct (Semaphore (concurrency args)) as [e|[|v]]; cbn -[for_each]; [discriminate..|].
    match goal with |- context [for_each ?f ?l] =>
      destruct (for_each f l) as [e|done] eqn:Hdone end; simpl; [discriminate|].
    destruct (if Str.truthy (jsonl args) then _ else _) as [e|[]]; simpl; [discriminate|].
    destruct (if Str.truthy (summary args) then _ else _) as [e|[]]; simpl; [discriminate|].
    intros [= <-]. simpl. split; [reflexivity|].
    rewrite as_completed_length. exact (for_each_length _ _ _ Hdone).
  - intros Hne Hpos Hwrite. destruct domains as [|d0 ds]; [contradiction|].
    unfold Semaphore. destruct (concurrency args <? 0)%Z eqn:Hneg; [lia|]. cbn -[for_each].
    destruct (Z.to_nat (concurrency args)) as [|v] eqn:Hv; [lia|].
    match goal with |- context [for_each ?f ?l] =>
      destruct (for_each_returns f l) as (done & Hdone & _) end.
    { intros d. destruct (scan_domain_returns w {| session_user_agent := user_agent args |} d
                            (dns_timeout args) (http_timeout args) (tls_timeout args)
                            (ws_timeout args)
                            (if ws args
                             then match ws_paths args with
                                  | [] => default_ws_paths
                                  | _ :: _ => ws_paths args
                                  end
                             else [])) as (h & t & _ & _ & Hscan).
      eexists. exact Hscan. }
    rewrite Hdone. simpl. unfold write_jsonl, write_summary. rewrite !Hwrite.
    destruct (Str.truthy (jsonl args)), (Str.truthy (summary args)); simpl;
      eexists; repeat split.
Qed.

(** A file with one domain, scanned with the defaults. *)
Lemma scan_action_exit_status_witness :
  main (Samples.world [] Samples.get_ok true ["example.com"]) Samples.runtime
       (Some (parser_defaults "domains.txt")) = Exit 0.
Proof.
  destruct (scan_action_exit_status
              (Samples.world [] Samples.get_ok true ["example.com"]) Samples.runtime
              (parser_defaults "domains.txt") ["example.com"] eq_refl)
    as (_ & _ & Hcompletes).
  destruct Hcompletes as (run & _ & _ & Hmain);
    [discriminate|reflexivity|reflexivity|exact Hmain].
Defined.

(** C9, as stated, fails: a file of comments ends the program with the
    status of a rejected command line. *)
Lemma empty_domain_list_exits_like_argparse :
  read_domains (Samples.world [] Samples.get_ok true ["# staging hosts"; ""])
    (url_checks Samples.runtime) "domains.txt" = inr []
  /\ main (Samples.world [] Samples.get_ok true ["# staging hosts"; ""]) Samples.runtime
          (Some (parser_defaults "domains.txt"))
     = main (Samples.world [] Samples.get_ok true ["# staging hosts"; ""]) Samples.runtime None.
Proof. split; reflexivity. Qed.

(* ===================================================================== *)
(** ** C10: the semaphore bounds the scans in flight                      *)
(* ===================================================================== *)

Lemma in_flight_insert (ts : list task) (i : nat) (t t' : task) :
  ts !! i = Some t ->
  List.length (List.filter is_running (<[i := t']> ts)) + running_count t
  = List.length (List.filter is_running ts) + running_count t'.
Proof.
  revert i. induction ts as [|x ts IH]; intros i Hi; [discriminate|].
  destruct i as [|i]; simpl in *.
  - injection Hi as ->. unfold running_count.
    destruct (is_running t), (is_running t'); simpl; lia.
  - specialize (IH i Hi). destruct (is_running x); simpl; lia.
Qed.

Lemma in_flight_init (value : nat) (domains : list string) :
  in_flight (orch_init value domains) = 0%nat.
Proof. unfold in_flight, orch_init. simpl. induction domains; simpl; auto. Qed.

(** Every step keeps the counter and the bodies in flight in balance. *)
Lemma fire_balance (ws_enabled : bool) (ev : event) (o o' : orch) :
  fire ws_enabled ev o = Some o' ->
  (sem_value o' + in_flight o' = sem_value o + in_flight o)%nat.
Proof.
  unfold fire, in_flight. destruct ev as [i|i].
  - destruct (tasks o !! i) as [[| |]|] eqn:Hi; try discriminate.
    destruct (sem_value o) as [|v]; [discriminate|]. intros [= <-]. simpl.
    pose proof (in_flight_insert (tasks o) i Waiting (Running InDns) Hi) as H.
    unfold running_count in H. simpl in H. lia.
  - destruct (tasks o !! i) as [[|p|]|] eqn:Hi; try discriminate.
    destruct (next_phase ws_enabled p) as [p'|]; intros [= <-]; simpl.
    + pose proof (in_flight_insert (tasks o) i (Running p) (Running p') Hi) as H.
      unfold running_count in H. simpl in H. lia.
    + pose proof (in_flight_insert (tasks o) i (Running p) Finished Hi) as H.
      unfold running_count in H. simpl in H. lia.
Qed.

Lemma run_balance (ws_enabled : bool) (schedule : list event) :
  forall o o', run ws_enabled schedule o = Some o' ->
    (sem_value o' + in_flight o' = sem_value o + in_flight o)%nat.
Proof.
  induction schedule as [|ev rest IH]; simpl; intros o o'.
  - now intros [= <-].
  - destruct (fire ws_enabled ev o) as [o1|] eqn:Hfire; [|discriminate].
    intros Hrun. rewrite (IH _ _ Hrun). now apply fire_balance with (ev := ev) (ws_enabled := ws_enabled).
Qed.

(** C10. Whatever the schedule, that is whatever the order in which the
    event loop lets tasks through the semaphore and resumes them from their
    probes, the state it reaches has at most [args.concurrency] bodies of
    [scan_domain] in flight, 50 with the defaults; every prefix of a schedule
    being a schedule, this holds at every point of a run. *)
Theorem in_flight_never_exceeds_limit (args : Namespace) (value : nat)
    (ws_enabled : bool) (domains : list string) (schedule : list event) (o : orch) :
  Semaphore (concurrency args) = inr value ->
  run ws_enabled schedule (orch_init value domains) = Some o ->
  (Z.of_nat (in_flight o) <= concurrency args)%Z
  /\ (sem_value o + in_flight o = value)%nat
  /\ (forall file, Semaphore (concurrency (parser_defaults file)) = inr 50%nat).
Proof.
  intros Hsem Hrun. apply run_balance in Hrun.
  rewrite in_flight_init in Hrun. simpl in Hrun.
  unfold Semaphore in Hsem. destruct (concurrency args <? 0)%Z eqn:Hneg; [discriminate|].
  injection Hsem as <-. split; [|split].
  - apply Z.ltb_ge in Hneg. lia.
  - lia.
  - reflexivity.
Qed.

(** Three domains under a limit of two: two enter, one runs to its end,
    the third enters. *)
Lemma in_flight_never_exceeds_limit_witness :
  exists o,
    run false [Enter 0; Enter 2; Resume 0; Resume 0; Resume 0; Enter 1]
        (orch_init 2 ["a.example"; "b.example"; "c.example"]) = Some o
    /\ in_flight o = 2%nat
    /\ (Z.of_nat (in_flight o) <= 2)%Z.
Proof.
  eexists. split; [reflexivity|]. split; [reflexivity|].
  apply (in_flight_never_exceeds_limit
           {| domains_file := "domains.txt"; concurrency := 2;
              dns_timeout := 2.5%float; http_timeout := 8%float;
              tls_timeout := 5%float; ws_timeout := 6%float;
              ws := false; ws_paths := []; jsonl := ""; summary := "";
              top := 25; show_domains := 0; quiet := false; progress := 0;
              user_agent := "whitelists-research-v2/0.1" |}
           2 false ["a.example"; "b.example"; "c.example"]
           [Enter 0; Enter 2; Resume 0; Resume 0; Resume 0; Enter 1] _
           eq_refl eq_refl).
Defined.

(* ===================================================================== *)
(** ** More on the CNAME walk                                             *)
(* ===================================================================== *)

Lemma rstrip_idempotent (p : ascii -> bool) (s : string) :
  Strip.rstrip p (Strip.rstrip p s) = Strip.rstrip p s.
Proof.
  induction s as [|c r IH]; simpl; [reflexivity|].
  destruct (Strip.rstrip p r) as [|c' r'] eqn:Hr.
  - destruct (p c) eqn:Hc; simpl; [reflexivity|]. now rewrite Hc.
  - simpl in IH |- *. now rewrite IH.
Qed.

Lemma rstrip_snoc (p : ascii -> bool) (s : string) (c : ascii) :
  p c = true -> Strip.rstrip p (s +:+ String c EmptyString) = Strip.rstrip p s.
Proof.
  intros Hc. induction s as [|a r IH]; simpl.
  - now rewrite Hc.
  - now rewrite IH.
Qed.

Lemma cname_walk_snoc (w : World) (timeout_s : float) (origin : string)
    (chain : list string) ans raw :
  cname_walk w timeout_s origin chain ->
  dns_resolve w timeout_s (List.last chain origin) = inr ans ->
  ans_target0 ans = inr raw ->
  cname_walk w timeout_s origin (chain ++ [rstrip_dot raw]).
Proof.
  intros Hwalk. induction Hwalk as [origin|origin ans0 raw0 rest Hq0 Ht0 Hrest IH];
    intros Hq Ht.
  - simpl in *. econstructor; [exact Hq|exact Ht|constructor].
  - rewrite last_cons_default in Hq. simpl.
    econstructor; [exact Hq0|exact Ht0|]. now apply IH.
Qed.

Section WalkMore.
Variable w : World.
Variable timeout_s : float.

(** What the loop returns is a walk from the origin that ended for a
    reason, and none of its entries ends in a dot. *)
Lemma _do_loop_walk (origin : string) n :
  forall chain cur seen,
    cur = List.last chain origin ->
    (forall x, x ∈ seen <-> In x (removelast (origin :: chain))) ->
    cname_walk w timeout_s origin chain ->
    Forall (fun x => rstrip_dot x = x) chain ->
    exists chain',
      _do_loop w timeout_s n chain cur seen = inr chain'
      /\ cname_walk w timeout_s origin chain'
      /\ Forall (fun x => rstrip_dot x = x) chain'
      /\ (List.length chain' = (List.length chain + n)%nat
          \/ In (List.last chain' origin) (removelast (origin :: chain'))
          \/ (exists e, dns_resolve w timeout_s (List.last chain' origin) = inl e)
          \/ (exists ans e, dns_resolve w timeout_s (List.last chain' origin) = inr ans
                            /\ ans_target0 ans = inl e)).
Proof.
  induction n as [|n IH]; intros chain cur seen Hcur Hseen Hwalk Hdots.
  - exists chain. simpl. repeat split; try assumption. left. lia.
  - destruct (decide (cur ∈ seen)) as [Hin|Hnew].
    { exists chain. rewrite _do_loop_seen by assumption. repeat split; try assumption.
      right. left. rewrite <- Hcur. now apply Hseen. }
    destruct (dns_resolve w timeout_s cur) as [e|ans] eqn:Hq.
    { exists chain. rewrite (_do_loop_query_fails _ _ _ _ _ _ e) by assumption.
      repeat split; try assumption. right. right. left. exists e. now rewrite <- Hcur. }
    destruct (ans_target0 ans) as [e|t] eqn:Ht.
    { exists chain. rewrite (_do_loop_target_fails _ _ _ _ _ _ ans e) by assumption.
      repeat split; try assumption. right. right. right. exists ans, e. now rewrite <- Hcur. }
    rewrite (_do_loop_step _ _ _ _ _ _ ans t) by assumption.
    assert (Hpath : removelast (origin :: chain ++ [rstrip_dot t]) = origin :: chain).
    { change (origin :: chain ++ [rstrip_dot t]) with ((origin :: chain) ++ [rstrip_dot t]).
      apply removelast_last. }
    assert (Hsplit : origin :: chain = removelast (origin :: chain) ++ [cur]).
    { rewrite Hcur, <- (last_cons_default origin origin chain).
      apply app_removelast_last. discriminate. }
    destruct (IH (chain ++ [rstrip_dot t]) (rstrip_dot t) (seen ∪ {[cur]}))
      as (chain' & Hrun & Hwalk' & Hdots' & Hstop).
    + now rewrite last_last.
    + intros x. rewrite Hpath, Hsplit, in_app_iff, elem_of_union, elem_of_singleton, Hseen.
      simpl. intuition.
    + apply (cname_walk_snoc w timeout_s origin chain ans t); [assumption| |assumption].
      now rewrite <- Hcur.
    + apply Forall_app. split; [assumption|]. constructor; [|constructor].
      apply rstrip_idempotent.
    + exists chain'. repeat split; try assumption.
      destruct Hstop as [Hlen|Hstop]; [left|now right].
      rewrite length_app in Hlen. simpl in Hlen. lia.
Qed.

End WalkMore.

(** X1. A chain returned by [resolve_cname_chain] is a walk of the CNAME
    records from the domain, each entry the first target of the name before
    it with its trailing dots removed, and the walk is complete: it has ten
    entries, or the name it reached had been queried before, or that name did
    not resolve to a target. *)
Theorem resolve_cname_chain_walks (w : World) (domain : string) (timeout_s : float)
    (chain : list string) :
  resolve_cname_chain w domain timeout_s = inr chain ->
  cname_walk w timeout_s (rstrip_dot domain) chain
  /\ walk_stopped w timeout_s (rstrip_dot domain) chain.
Proof.
  rewrite resolve_cname_chain_cases. destruct (new_resolver w) as [e|[]]; [discriminate|].
  intros Hrun.
  destruct (_do_loop_walk w timeout_s (rstrip_dot domain) 10 [] (rstrip_dot domain) ∅)
    as (chain' & Hrun' & Hwalk & _ & Hstop).
  - reflexivity.
  - intros x. simpl. split; [intros H; now apply not_elem_of_empty in H|tauto].
  - constructor.
  - constructor.
  - assert (chain' = chain) as -> by congruence. split; [exact Hwalk|exact Hstop].
Qed.

(** The walk of a -> b -> c, where c has no record. *)
Lemma resolve_cname_chain_walks_witness :
  cname_walk (Samples.world [("a.example", "b.example."); ("b.example", "c.example.")]
                Samples.get_ok true []) 2.5%float "a.example" ["b.example"; "c.example"]
  /\ walk_stopped (Samples.world [("a.example", "b.example."); ("b.example", "c.example.")]
                     Samples.get_ok true []) 2.5%float "a.example" ["b.example"; "c.example"].
Proof.
  exact (resolve_cname_chain_walks
           (Samples.world [("a.example", "b.example."); ("b.example", "c.example.")]
              Samples.get_ok true []) "a.example" 2.5%float ["b.example"; "c.example"]
           eq_refl).
Defined.

(** X2. Trailing dots play no part in the walk: no entry of a returned
    chain ends in a dot, and a domain written with a trailing dot is resolved
    as the domain without it. *)
Theorem resolve_cname_chain_ignores_trailing_dots (w : World) (domain : string)
    (timeout_s : float) :
  resolve_cname_chain w (domain +:+ ".") timeout_s = resolve_cname_chain w domain timeout_s
  /\ (forall chain, resolve_cname_chain w domain timeout_s = inr chain ->
        Forall (fun x => rstrip_dot x = x) chain).
Proof.
  split.
  - rewrite !resolve_cname_chain_cases. unfold rstrip_dot.
    now rewrite (rstrip_snoc Strip.is_dot domain "."%char).
  - intros chain. rewrite resolve_cname_chain_cases.
    destruct (new_resolver w) as [e|[]]; [discriminate|]. intros Hrun.
    destruct (_do_loop_walk w timeout_s (rstrip_dot domain) 10 [] (rstrip_dot domain) ∅)
      as (chain' & Hrun' & _ & Hdots & _).
    + reflexivity.
    + intros x. simpl. split; [intros H; now apply not_elem_of_empty in H|tauto].
    + constructor.
    + constructor.
    + assert (chain' = chain) as -> by congruence. exact Hdots.
Qed.

(* ===================================================================== *)
(** ** More on the normalizer                                             *)
(* ===================================================================== *)

Section StringFacts.
Implicit Types (p q : ascii -> bool) (s : string) (c : ascii).

Lemma forallb_impl p q s :
  (forall c, p c = true -> q c = true) -> Url.forallb p s = true -> Url.forallb q s = true.
Proof.
  intros Hpq. induction s as [|a r IH]; simpl; [reflexivity|].
  intros [Ha Hr]%andb_prop. now rewrite (Hpq a Ha), IH.
Qed.

Lemma rstrip_nothing p s :
  Url.forallb (fun c => negb (p c)) s = true -> Strip.rstrip p s = s.
Proof.
  induction s as [|a r IH]; simpl; [reflexivity|].
  intros [Ha Hr]%andb_prop. rewrite (IH Hr).
  apply negb_true_iff in Ha. rewrite Ha. now destruct r.
Qed.

Lemma lstrip_nothing p s :
  Url.forallb (fun c => negb (p c)) s = true -> Strip.lstrip p s = s.
Proof.
  destruct s as [|a r]; simpl; [reflexivity|].
  intros [Ha _]%andb_prop. apply negb_true_iff in Ha. now rewrite Ha.
Qed.

(** What [lstrip] returns does not start with a character to strip. *)
Lemma lstrip_head p s :
  Strip.lstrip p s = EmptyString
  \/ exists a r, Strip.lstrip p s = String a r /\ p a = false.
Proof.
  induction s as [|a r IH]; simpl; [now left|].
  destruct (p a) eqn:Ha; [exact IH|]. right. now exists a, r.
Qed.

Lemma strip_idempotent p s : Strip.strip p (Strip.strip p s) = Strip.strip p s.
Proof.
  unfold Strip.strip.
  assert (Hl : Strip.lstrip p (Strip.rstrip p (Strip.lstrip p s))
               = Strip.rstrip p (Strip.lstrip p s)).
  { destruct (lstrip_head p s) as [->|(a & r & -> & Ha)]; [reflexivity|].
    simpl. destruct (Strip.rstrip p r); simpl; rewrite ?Ha; simpl; now rewrite ?Ha. }
  rewrite Hl. apply rstrip_idempotent.
Qed.

Lemma lower_empty s : Str.lower s = EmptyString <-> s = EmptyString.
Proof. destruct s; simpl; split; congruence. Qed.

Lemma lstrip_lower p s :
  (forall c, p (Str.lower_ascii c) = p c) ->
  Strip.lstrip p (Str.lower s) = Str.lower (Strip.lstrip p s).
Proof.
  intros Hp. induction s as [|a r IH]; simpl; [reflexivity|].
  rewrite Hp. now destruct (p a).
Qed.

Lemma rstrip_lower p s :
  (forall c, p (Str.lower_ascii c) = p c) ->
  Strip.rstrip p (Str.lower s) = Str.lower (Strip.rstrip p s).
Proof.
  intros Hp. induction s as [|a r IH]; simpl; [reflexivity|].
  rewrite IH, Hp. destruct (Strip.rstrip p r); simpl; [|reflexivity].
  now destruct (p a).
Qed.

Lemma count_lstrip_le p c s : (Url.count c (Strip.lstrip p s) <= Url.count c s)%nat.
Proof.
  induction s as [|a r IH]; simpl; [lia|].
  destruct (p a); simpl; lia.
Qed.

Lemma count_rstrip_le p c s : (Url.count c (Strip.rstrip p s) <= Url.count c s)%nat.
Proof.
  induction s as [|a r IH]; simpl; [lia|].
  destruct (Strip.rstrip p r) as [|a' r']; simpl in *.
  - destruct (p a); simpl; lia.
  - lia.
Qed.

Lemma count_partition_before c s : Url.count c (fst (fst (Url.partition c s))) = 0%nat.
Proof.
  induction s as [|a r IH]; simpl; [reflexivity|].
  destruct (decide (a = c)) as [->|Hne]; simpl; [reflexivity|].
  destruct (Url.partition c r) as [[before found] after]. simpl in *.
  destruct (decide (a = c)); [contradiction|]. exact IH.
Qed.

Lemma count_partition_le c c' s :
  (Url.count c (fst (fst (Url.partition c' s))) <= Url.count c s)%nat.
Proof.
  induction s as [|a r IH]; simpl; [lia|].
  destruct (decide (a = c')) as [->|Hne]; simpl; [lia|].
  destruct (Url.partition c' r) as [[before found] after]. simpl in *. lia.
Qed.

Lemma partition_absent c s :
  Url.count c s = 0%nat -> Url.partition c s = (s, false, EmptyString).
Proof.
  induction s as [|a r IH]; simpl; [reflexivity|].
  destruct (decide (a = c)); simpl; [discriminate|]. intros Hr. now rewrite (IH Hr).
Qed.

Lemma prefix_head_ne c a s1 s2 :
  c <> a -> String.prefix (String c s1) (String a s2) = false.
Proof.
  intros Hne. cbn [String.prefix].
  destruct (Ascii.ascii_dec c a); [contradiction|reflexivity].
Qed.

Lemma contains_scheme_needs_colon s :
  Url.count ":"%char s = 0%nat -> Url.contains "://" s = false.
Proof.
  induction s as [|a r IH]; [reflexivity|].
  cbn [Url.contains Url.count].
  destruct (decide (a = ":"%char)) as [->|Hne]; [discriminate|].
  intros Hr. rewrite (IH Hr), orb_false_r. apply prefix_head_ne. congruence.
Qed.

End StringFacts.

Lemma is_dot_lower (c : ascii) : Strip.is_dot (Str.lower_ascii c) = Strip.is_dot c.
Proof. destruct c as [[] [] [] [] [] [] [] []]; reflexivity. Qed.

Lemma strip_dot_lower (s : string) : strip_dot (Str.lower s) = Str.lower (strip_dot s).
Proof.
  unfold strip_dot, Strip.strip.
  now rewrite (lstrip_lower _ _ is_dot_lower), (rstrip_lower _ _ is_dot_lower).
Qed.

Lemma count_slash_lower (s : string) :
  Url.count "/"%char (Str.lower s) = Url.count "/"%char s.
Proof.
  induction s as [|a r IH]; simpl; [reflexivity|]. rewrite IH. f_equal.
  destruct a as [[] [] [] [] [] [] [] []]; reflexivity.
Qed.

Lemma truthy_lower (s : string) : Str.truthy (Str.lower s) = Str.truthy s.
Proof. now destruct s. Qed.

Lemma truthy_nonempty (s : string) : Str.truthy s = true <-> s <> EmptyString.
Proof. destruct s; simpl; split; congruence. Qed.

(** A lowercased, dot-stripped string stays as it is under both. *)
Lemma normal_form (x : string) :
  Str.lower (Str.lower (strip_dot x)) = Str.lower (strip_dot x)
  /\ strip_dot (Str.lower (strip_dot x)) = Str.lower (strip_dot x).
Proof.
  split; [apply lower_idempotent|].
  rewrite strip_dot_lower. f_equal. apply strip_idempotent.
Qed.

Lemma host_char_facts (c : ascii) :
  is_host_char c = true ->
  Strip.is_space c = false /\ c <> "#"%char /\ c <> ":"%char /\ c <> "/"%char.
Proof.
  destruct c as [[] [] [] [] [] [] [] []]; intros H; try discriminate H;
    repeat split; discriminate.
Qed.

Lemma host_chars_count (c : ascii) (s : string) :
  is_host_char c = false -> Url.forallb is_host_char s = true -> Url.count c s = 0%nat.
Proof.
  intros Hc. induction s as [|a r IH]; simpl; [reflexivity|].
  intros [Ha Hr]%andb_prop. rewrite (IH Hr).
  destruct (decide (a = c)) as [->|_]; [congruence|reflexivity].
Qed.

(** X3. A line made of letters, digits, hyphens and dots only is taken
    as a bare host name, whatever the checks of [urlparse]: it normalizes to
    its lowercase form without leading or trailing dots, or to nothing when
    only dots are left, and normalizing the result again returns it
    unchanged. *)
Theorem norm_domain_host_name (k : Url.Checks) (line : string) :
  Url.forallb is_host_char line = true ->
  _norm_domain k line
  = inr (if Str.truthy (strip_dot line) then Some (Str.lower (strip_dot line)) else None)
  /\ (forall r, _norm_domain k line = inr (Some r) -> _norm_domain k r = inr (Some r)).
Proof.
  assert (Hplain : forall s, Url.forallb is_host_char s = true ->
            _norm_domain k s
            = inr (if Str.truthy (strip_dot s) then Some (Str.lower (strip_dot s)) else None)).
  { intros s Hs. unfold _norm_domain.
    assert (Hstrip : Strip.strip Strip.is_space s = s).
    { unfold Strip.strip.
      assert (Hns : Url.forallb (fun c => negb (Strip.is_space c)) s = true).
      { eapply forallb_impl; [|exact Hs]. intros c Hc.
        now destruct (host_char_facts c Hc) as (-> & _). }
      now rewrite (lstrip_nothing _ _ Hns), (rstrip_nothing _ _ Hns). }
    rewrite Hstrip.
    assert (Hhash : String.prefix "#" s = false).
    { destruct s as [|a r]; [reflexivity|]. cbn [Url.forallb] in Hs.
      apply andb_prop in Hs as [Ha _]. destruct (host_char_facts a Ha) as (_ & Hne & _).
      apply prefix_head_ne. congruence. }
    rewrite Hhash, orb_false_r.
    destruct (Str.truthy s) eqn:Hts; simpl.
    2:{ destruct s; [reflexivity|discriminate]. }
    rewrite (contains_scheme_needs_colon s) by (now apply host_chars_count).
    rewrite (partition_absent "/"%char s) by (now apply host_chars_count). simpl.
    unfold Url.has. rewrite (host_chars_count ":"%char s eq_refl Hs). simpl.
    now rewrite truthy_lower. }
  intros Hline. split; [now apply Hplain|].
  intros r. rewrite (Hplain line Hline).
  destruct (Str.truthy (strip_dot line)) eqn:Ht; [|discriminate]. intros [= <-].
  assert (Hchars : Url.forallb is_host_char (Str.lower (strip_dot line)) = true).
  { assert (Hsub : forall p s, Url.forallb is_host_char s = true ->
               Url.forallb is_host_char (Strip.lstrip p s) = true
               /\ Url.forallb is_host_char (Strip.rstrip p s) = true).
    { intros p s. induction s as [|a r IH]; simpl; [now split|].
      intros [Ha Hr]%andb_prop. destruct (IH Hr) as [IHl IHr]. split.
      - destruct (p a); [exact IHl|]. simpl. now rewrite Ha, Hr.
      - destruct (Strip.rstrip p r) as [|a' r'].
        + destruct (p a); simpl; [reflexivity|]. now rewrite Ha.
        + simpl in IHr |- *. now rewrite Ha, IHr. }
    assert (Hlow : forall s, Url.forallb is_host_char s = true ->
               Url.forallb is_host_char (Str.lower s) = true).
    { intros s. induction s as [|a r IH]; simpl; [reflexivity|].
      intros [Ha Hr]%andb_prop. rewrite (IH Hr), andb_true_r.
      clear -Ha. destruct a as [[] [] [] [] [] [] [] []]; try discriminate Ha; reflexivity. }
    apply Hlow. unfold strip_dot, Strip.strip.
    apply Hsub. now apply Hsub. }
  rewrite (Hplain _ Hchars).
  destruct (normal_form line) as [Hlower Hdots].
  now rewrite Hdots, truthy_lower, Ht, Hlower.
Qed.

Lemma norm_domain_host_name_witness :
  _norm_domain (url_checks Samples.runtime) ".Sub-1.Example.ORG."
  = inr (Some "sub-1.example.org").
Proof.
  exact (proj1 (norm_domain_host_name (url_checks Samples.runtime) ".Sub-1.Example.ORG."
                  eq_refl)).
Defined.

Section Kept.
Variable q : ascii -> bool.
Implicit Types (p : ascii -> bool) (s : string) (c : ascii).

(** The methods of [str] used by the normalizer return characters of the
    string they are applied to: a property of every character is kept. *)
Lemma kept_by_lstrip p s :
  Url.forallb q s = true -> Url.forallb q (Strip.lstrip p s) = true.
Proof.
  induction s as [|a r IH]; simpl; [reflexivity|].
  intros [Ha Hr]%andb_prop. destruct (p a); [exact (IH Hr)|]. simpl. now rewrite Ha, Hr.
Qed.

Lemma kept_by_rstrip p s :
  Url.forallb q s = true -> Url.forallb q (Strip.rstrip p s) = true.
Proof.
  induction s as [|a r IH]; simpl; [reflexivity|].
  intros [Ha Hr]%andb_prop. specialize (IH Hr).
  destruct (Strip.rstrip p r) as [|a' r'].
  - destruct (p a); simpl; [reflexivity|]. now rewrite Ha.
  - simpl in IH |- *. now rewrite Ha, IH.
Qed.

Lemma kept_by_strip p s :
  Url.forallb q s = true -> Url.forallb q (Strip.strip p s) = true.
Proof. intros Hs. unfold Strip.strip. now apply kept_by_rstrip, kept_by_lstrip. Qed.

Lemma kept_by_remove p s :
  Url.forallb q s = true -> Url.forallb q (Url.remove p s) = true.
Proof.
  induction s as [|a r IH]; simpl; [reflexivity|].
  intros [Ha Hr]%andb_prop. destruct (p a); simpl; [exact (IH Hr)|]. now rewrite Ha, IH.
Qed.

Lemma kept_by_take_until p s :
  Url.forallb q s = true -> Url.forallb q (Url.take_until p s) = true.
Proof.
  induction s as [|a r IH]; simpl; [reflexivity|].
  intros [Ha Hr]%andb_prop. destruct (p a); simpl; [reflexivity|]. now rewrite Ha, IH.
Qed.

Lemma kept_by_partition c s :
  Url.forallb q s = true ->
  Url.forallb q (fst (fst (Url.partition c s))) = true
  /\ Url.forallb q (snd (Url.partition c s)) = true.
Proof.
  induction s as [|a r IH]; simpl; [now split|].
  intros [Ha Hr]%andb_prop. destruct (decide (a = c)); simpl; [now split|].
  destruct (IH Hr) as [Hbefore Hafter].
  destruct (Url.partition c r) as [[before found] after]. simpl in *.
  now rewrite Ha, Hbefore.
Qed.

Lemma kept_by_after_last c s :
  Url.forallb q s = true -> Url.forallb q (Url.after_last c s) = true.
Proof.
  induction s as [|a r IH]; [reflexivity|]. cbn [Url.after_last Url.forallb].
  intros [Ha Hr]%andb_prop.
  destruct (Url.partition c r) as [[before found] after].
  destruct found; [exact (IH Hr)|].
  destruct (decide (a = c)); [exact Hr|]. simpl. now rewrite Ha, Hr.
Qed.

Lemma kept_by_substring (n m : nat) s :
  Url.forallb q s = true -> Url.forallb q (String.substring n m s) = true.
Proof.
  revert n m. induction s as [|a r IH]; intros n m.
  - now destruct n, m.
  - intros [Ha Hr]%andb_prop. destruct n as [|n].
    + destruct m as [|m]; simpl; [reflexivity|]. now rewrite Ha, IH.
    + simpl. now apply IH.
Qed.

Lemma forallb_app s1 s2 :
  Url.forallb q (s1 +:+ s2) = Url.forallb q s1 && Url.forallb q s2.
Proof.
  induction s1 as [|a r IH]; [reflexivity|].
  change (String a r +:+ s2) with (String a (r +:+ s2)). simpl. now rewrite IH, andb_assoc.
Qed.

End Kept.

Lemma is_ascii_lower (s : string) : Url.is_ascii (Str.lower s) = Url.is_ascii s.
Proof.
  unfold Url.is_ascii. induction s as [|a r IH]; simpl; [reflexivity|]. rewrite IH. f_equal.
  destruct a as [[] [] [] [] [] [] [] []]; reflexivity.
Qed.

(** The net location [urlsplit] finds in ASCII text is ASCII text, and so
    is the host name read from it. *)
Lemma netloc_ascii (k : Url.Checks) (url nl : string) :
  Url.is_ascii url = true -> Url.netloc k url = inr nl -> Url.is_ascii nl = true.
Proof.
  unfold Url.is_ascii. intros Hurl. unfold Url.netloc. cbv zeta.
  set (q := Url.in_range 0 127) in *.
  set (u1 := Url.remove Url.is_unsafe (Strip.lstrip Url.is_c0_or_space url)).
  assert (H1 : Url.forallb q u1 = true) by now apply kept_by_remove, kept_by_lstrip.
  destruct (kept_by_partition q ":"%char u1 H1) as [_ Hpost].
  destruct (Url.partition ":"%char u1) as [[pre found] post]. simpl in Hpost.
  match goal with
  | |- context [String.prefix "//" ?u] => set (u2 := u)
  end.
  assert (H2 : Url.forallb q u2 = true).
  { unfold u2. destruct pre as [|a r]; [exact H1|]. destruct found; [|exact H1].
    destruct (_ && _); [exact Hpost|exact H1]. }
  clearbody u2. destruct (String.prefix "//" u2); [|now intros [= <-]].
  set (n := Url.take_until Url.is_netloc_delim
              (String.substring 2 (String.length u2 - 2) u2)).
  assert (Hn : Url.forallb q n = true) by now apply kept_by_take_until, kept_by_substring.
  destruct (_ || _); [discriminate|].
  destruct (if Url.has "["%char n && Url.has "]"%char n then _ else _) as [e|[]];
    simpl; [discriminate|].
  destruct (if negb (Str.truthy n) || _ then _ else _) as [e|[]]; simpl; [discriminate|].
  now intros [= <-].
Qed.

Lemma hostname_ascii (k : Url.Checks) (url h : string) :
  Url.is_ascii url = true -> Url.hostname k url = inr (Some h) -> Url.is_ascii h = true.
Proof.
  intros Hurl. unfold Url.hostname.
  destruct (Url.netloc k url) as [e|nl] eqn:Hnl; simpl; [discriminate|].
  apply (netloc_ascii k url nl Hurl) in Hnl. unfold Url.is_ascii in *.
  set (q := Url.in_range 0 127) in *.
  assert (Hinfo : Url.forallb q (Url.after_last "@"%char nl) = true)
    by now apply kept_by_after_last.
  destruct (kept_by_partition q "["%char _ Hinfo) as [_ Hbr].
  destruct (kept_by_partition q ":"%char _ Hinfo) as [Hplain _].
  destruct (Url.partition "["%char (Url.after_last "@"%char nl))
    as [[before have_open_br] bracketed]. simpl in Hbr.
  destruct (kept_by_partition q "]"%char _ Hbr) as [Hinner _].
  match goal with
  | |- context [Str.truthy ?x] => set (host := x)
  end.
  assert (Hhost : Url.forallb q host = true).
  { unfold host. destruct have_open_br; [exact Hinner|exact Hplain]. }
  clearbody host. destruct (Str.truthy host); [|discriminate].
  destruct (kept_by_partition q "%"%char host Hhost) as [Hname Hzone].
  destruct (Url.partition "%"%char host) as [[name percent] zone]. simpl in Hname, Hzone.
  intros [= <-]. rewrite !forallb_app, Hzone.
  fold (Url.is_ascii (Str.lower name)). rewrite is_ascii_lower. unfold Url.is_ascii.
  fold q. rewrite Hname. now destruct percent.
Qed.

(** X4. On a line of ASCII text, whatever [_norm_domain] returns is
    ASCII text in normal form: lowercase and free of leading and trailing
    dots; a line without scheme separator gives, besides, a result that is
    not empty and contains no slash. *)
Theorem norm_domain_normal_form (k : Url.Checks) (line r : string) :
  Url.is_ascii line = true ->
  _norm_domain k line = inr (Some r) ->
  Url.is_ascii r = true
  /\ Str.lower r = r
  /\ strip_dot r = r
  /\ (Url.contains "://" (Strip.strip Strip.is_space line) = false ->
      r <> "" /\ Url.count "/"%char r = 0%nat).
Proof.
  intros Hline. unfold _norm_domain.
  assert (Hs : Url.is_ascii (Strip.strip Strip.is_space line) = true)
    by now apply kept_by_strip.
  destruct (negb _ || _); [discriminate|].
  destruct (Url.contains "://" (Strip.strip Strip.is_space line)).
  - destruct (Url.hostname k _) as [e|[h|]] eqn:Hhost; simpl; try discriminate.
    destruct (Str.truthy h); [|discriminate]. intros [= <-].
    destruct (normal_form h) as [Hlower Hdots].
    split; [|split; [exact Hlower|split; [exact Hdots|discriminate]]].
    rewrite is_ascii_lower. apply kept_by_strip.
    exact (hostname_ascii k _ h Hs Hhost).
  - set (s1 := fst (fst (Url.partition "/"%char (Strip.strip Strip.is_space line)))).
    set (s2 := if Url.has ":"%char s1 && bool_decide (Url.count ":"%char s1 = 1%nat)
               then fst (fst (Url.partition ":"%char s1)) else s1).
    destruct (Str.truthy (Str.lower (strip_dot s2))) eqn:Ht; [|discriminate].
    intros [= <-]. destruct (normal_form s2) as [Hlower Hdots].
    split; [|split; [exact Hlower|split; [exact Hdots|]]].
    + rewrite is_ascii_lower. apply kept_by_strip.
      assert (Hs1 : Url.is_ascii s1 = true) by now apply kept_by_partition.
      unfold s2. destruct (_ && _); [now apply kept_by_partition|exact Hs1].
    + intros _. split; [now apply truthy_nonempty|].
      rewrite count_slash_lower.
      assert (Hs1 : Url.count "/"%char s1 = 0%nat) by apply count_partition_before.
      assert (Hs2 : (Url.count "/"%char s2 <= Url.count "/"%char s1)%nat).
      { unfold s2. destruct (_ && _); [apply count_partition_le|lia]. }
      pose proof (count_rstrip_le Strip.is_dot "/"%char (Strip.lstrip Strip.is_dot s2)).
      pose proof (count_lstrip_le Strip.is_dot "/"%char s2).
      unfold strip_dot, Strip.strip. lia.
Qed.

Lemma norm_domain_normal_form_witness :
  _norm_domain (url_checks Samples.runtime) "  Sub.Example.ORG.:8443/Some/Path  "
  = inr (Some "sub.example.org")
  /\ Url.is_ascii "sub.example.org" = true
  /\ Url.count "/"%char "sub.example.org" = 0%nat.
Proof.
  split; [reflexivity|].
  destruct (norm_domain_normal_form (url_checks Samples.runtime)
              "  Sub.Example.ORG.:8443/Some/Path  " "sub.example.org" eq_refl eq_refl)
    as (Hascii & _ & _ & Hplain).
  split; [exact Hascii|]. now apply Hplain.
Defined.

Lemma read_domains_loop_spec (k : Url.Checks) (lines : list string) :
  forall acc,
    match read_domains_loop k lines acc with
    | inr ds =>
        exists outs,
          Forall2 (fun line o => _norm_domain k line = inr o) lines outs
          /\ ds = acc ++ omap kept outs
    | inl e => exists line, In line lines /\ _norm_domain k line = inl e
    end.
Proof.
  induction lines as [|line rest IH]; intros acc; simpl.
  - exists []. split; [constructor|]. now rewrite app_nil_r.
  - destruct (_norm_domain k line) as [e|o] eqn:Hline; simpl.
    + exists line. split; [now left|exact Hline].
    + destruct o as [d|]; [destruct (Str.truthy d) eqn:Hd|].
      all: match goal with
           | |- context [read_domains_loop _ _ ?a] =>
               specialize (IH a); destruct (read_domains_loop k rest a) as [e|ds]
           end.
      all: try (destruct IH as (line' & Hin & Hraise); exists line';
                split; [now right|exact Hraise]).
      all: destruct IH as (outs & Hall & ->); eexists (_ :: outs);
           (split; [constructor; [exact Hline|exact Hall]|]).
      all: simpl; rewrite ?Hd; simpl; rewrite <- ?app_assoc; reflexivity.
Qed.

(** X5. When the file can be read and its lines are ASCII text,
    [read_domains] returns the results of [_norm_domain] on the lines, in the
    order of the file, without the lines that gave nothing or an empty name:
    at most one domain per line, each of them ASCII text that is not empty,
    lowercase and free of leading and trailing dots.  It raises only what
    [_norm_domain] raised on one of the lines. *)
Theorem read_domains_keeps_normalized (w : World) (k : Url.Checks) (path : string)
    (lines : list string) :
  fs_read w path = inr lines ->
  Forall (fun line => Url.is_ascii line = true) lines ->
  match read_domains w k path with
  | inr ds =>
      (exists outs,
          Forall2 (fun line o => _norm_domain k line = inr o) lines outs
          /\ ds = omap kept outs)
      /\ (List.length ds <= List.length lines)%nat
      /\ Forall (fun d => Url.is_ascii d = true
                          /\ d <> "" /\ Str.lower d = d /\ strip_dot d = d) ds
  | inl e => exists line, In line lines /\ _norm_domain k line = inl e
  end.
Proof.
  intros Hread Hascii. unfold read_domains. rewrite Hread. simpl.
  pose proof (read_domains_loop_spec k lines []) as Hloop.
  destruct (read_domains_loop k lines []) as [e|ds]; [exact Hloop|].
  destruct Hloop as (outs & Hall & Hds). simpl in Hds.
  split; [now exists outs|]. subst ds. clear Hread. split.
  - clear Hascii. induction Hall as [|line o lines outs Hline Hall IH]; simpl; [lia|].
    change (omap kept outs) with (list_omap _ _ kept outs) in IH.
    destruct (kept o); simpl; lia.
  - induction Hall as [|line o lines outs Hline Hall IH]; simpl; [constructor|].
    apply Forall_cons in Hascii as [Hfirst Hrest]. specialize (IH Hrest).
    destruct o as [d|]; simpl; [|exact IH].
    destruct (Str.truthy d) eqn:Hd; simpl; [|exact IH]. constructor; [|exact IH].
    destruct (norm_domain_normal_form k line d Hfirst Hline) as (Hasc & Hlower & Hdots & _).
    split; [exact Hasc|]. split; [now apply truthy_nonempty|]. now split.
Qed.

(** A file with a comment, a blank line, a URL and a bare name. *)
Lemma read_domains_keeps_normalized_witness :
  match read_domains
          (Samples.world [] Samples.get_ok true
             ["# hosts"; ""; "https://Example.com:8443/path"; "sub.example.org/"])
          (url_checks Samples.runtime) "domains.txt" with
  | inr ds => ds = ["example.com"; "sub.example.org"]
              /\ Forall (fun d => Url.is_ascii d = true
                                  /\ d <> "" /\ Str.lower d = d /\ strip_dot d = d) ds
  | inl _ => False
  end.
Proof.
  pose proof (read_domains_keeps_normalized
                (Samples.world [] Samples.get_ok true
                   ["# hosts"; ""; "https://Example.com:8443/path"; "sub.example.org/"])
                (url_checks Samples.runtime) "domains.txt"
                ["# hosts"; ""; "https://Example.com:8443/path"; "sub.example.org/"]
                eq_refl) as Hspec.
  change (read_domains
            (Samples.world [] Samples.get_ok true
               ["# hosts"; ""; "https://Example.com:8443/path"; "sub.example.org/"])
            (url_checks Samples.runtime) "domains.txt")
    with (@inr exn _ ["example.com"; "sub.example.org"]) in Hspec |- *.
  split; [reflexivity|]. apply Hspec. repeat constructor.
Defined.

(* ===================================================================== *)
(** ** More on the signature and the probers                              *)
(* ===================================================================== *)

Lemma hexdigest_64 (msg : list N) :
  String.length (SHA256.hexdigest msg) = 64%nat
  /\ Url.forallb is_hex (SHA256.hexdigest msg) = true.
Proof.
  unfold SHA256.hexdigest. generalize (SHA256.digest msg) as s. intros s.
  split; [reflexivity|].
  unfold SHA256.hex8. cbn [Url.forallb].
  rewrite !hex_digit_is_hex. reflexivity.
Qed.

(** X6. For every text [_sha256_hex] returns 64 characters, all of them
    digits or letters from a to f, and for every input [compute_signature]
    returns 16 of that kind. *)
Theorem signature_is_hex (d : string) (c : list string) (h : HTTPFingerprint)
    (t : TLSFingerprint) :
  String.length (compute_signature d c h t) = 16%nat
  /\ Url.forallb is_hex (compute_signature d c h t) = true
  /\ (forall s, String.length (_sha256_hex s) = 64%nat
                /\ Url.forallb is_hex (_sha256_hex s) = true).
Proof.
  unfold compute_signature, _sha256_hex.
  split; [apply take16_hexdigest|]. split; [apply take16_hexdigest|].
  intros s. apply hexdigest_64.
Qed.

(** X7. On fields of ASCII text the signature does not see the case of
    letters in the CNAME target, the content type, the server, via,
    cache-control, x-cache and x-served-by headers, the issuer and the ALPN:
    two inputs whose fields of this list are ASCII text and agree up to case,
    and which agree on the final host and the status, get the same digest.
    An empty chain counts as a chain ending in the empty name. *)
Theorem compute_signature_ignores_case
    (d1 d2 : string) (c1 c2 : list string)
    (h1 h2 : HTTPFingerprint) (t1 t2 : TLSFingerprint) :
  ascii_fields c1 h1 t1 = true ->
  ascii_fields c2 h2 t2 = true ->
  same_fields_up_to_case c1 h1 t1 c2 h2 t2 ->
  compute_signature d1 c1 h1 t1 = compute_signature d2 c2 h2 t2.
Proof.
  intros _ _ (Hc & Hfh & Hst & Hct & Hsrv & Hvia & Hcache & Hxc & Hxs & Hiss & Halpn).
  unfold compute_signature, signature_parts. rewrite !or_empty_id.
  assert (Hterm : forall c, match last c with Some x => Str.lower x | None => "" end
                            = terminal_cname c).
  { intros c. unfold terminal_cname. now destruct (last c). }
  now rewrite !Hterm, Hc, Hfh, Hst, Hct, Hsrv, Hvia, Hcache, Hxc, Hxs, Hiss, Halpn.
Qed.

(** A server header in capitals, a chain ending in the empty name. *)
Lemma compute_signature_ignores_case_witness :
  compute_signature "a.example" []
    (MkHTTP true (Some 200%Z) "" "a.example" "text/html" "NGINX" "" "" "" "" "" "" "" "" "" "" "")
    Samples.tls_a
  = compute_signature "b.example" ["x.example"; ""]
      (MkHTTP true (Some 200%Z) "" "a.example" "Text/HTML" "nginx" "" "" "" "" "" "" "" "" "" "" "")
      Samples.tls_b.
Proof.
  apply compute_signature_ignores_case; [reflexivity..|]. repeat split; reflexivity.
Defined.

(** X8. A failure while reading the first bytes of the body is ignored:
    once the GET has been answered the fingerprint is the one captured from
    the response, with success set and no error, whether the read of the body
    raises or not. *)
Theorem http_body_read_failure_ignored (w : World) (session : Session) (d : string)
    (timeout_s : float) (resp : Response) (e : exn) :
  session_get w session ("https://" +:+ d +:+ "/") timeout_s = inr resp ->
  resp_content_read resp 256 = inl e ->
  exists fp,
    fetch_http_fingerprint w session d timeout_s = inr fp
    /\ fp = http_capture HTTPFingerprint_new resp
    /\ http_ok fp = true /\ http_status fp = Some (resp_status resp)
    /\ http_error fp = "".
Proof.
  intros Hget Hread. unfold fetch_http_fingerprint. rewrite Hget. simpl.
  rewrite Hread. simpl. eexists. repeat split.
Qed.

(** A server that answers 204 and resets the connection under the read. *)
Lemma http_body_read_failure_ignored_witness :
  exists fp,
    fetch_http_fingerprint
      (Samples.world []
         (fun _ => inr {| resp_status := 204; resp_url := "https://www.example/";
                          resp_url_host := Some "www.example"; resp_headers := ∅;
                          resp_content_read :=
                            fun _ => inl (Raise_ ClientError "Connection reset by peer") |})
         true [])
      Samples.session "www.example" 8%float = inr fp
    /\ http_ok fp = true /\ http_status fp = Some 204%Z /\ http_error fp = "".
Proof.
  destruct (http_body_read_failure_ignored
              (Samples.world []
                 (fun _ => inr {| resp_status := 204; resp_url := "https://www.example/";
                                  resp_url_host := Some "www.example"; resp_headers := ∅;
                                  resp_content_read :=
                                    fun _ => inl (Raise_ ClientError "Connection reset by peer") |})
                 true [])
              Samples.session "www.example" 8%float _
              (Raise_ ClientError "Connection reset by peer") eq_refl eq_refl)
    as (fp & Hfetch & _ & Hok & Hstatus & Herr).
  exists fp. split; [exact Hfetch|]. split; [exact Hok|]. split; [exact Hstatus|exact Herr].
Defined.

(** X9. [fetch_tls_fingerprint] returns a fingerprint for every world,
    with the domain as its SNI.  Success is set exactly when an address was
    found, the connection was made and the handshake went through, and then
    no error is recorded; otherwise the ALPN and the certificate fields stay
    empty.  The address tried is recorded as soon as it is known, also when
    the connection or the handshake fails after that. *)
Theorem fetch_tls_fingerprint_outcome (w : World) (d : string) (timeout_s : float) :
  exists fp,
    fetch_tls_fingerprint w d timeout_s = inr fp
    /\ tls_sni fp = d
    /\ (tls_ok fp = true <->
        exists ip ips sock,
          getaddrinfo w d 443 = inr (ip :: ips)
          /\ socket_connect w ip 443 timeout_s = inr tt
          /\ wrap_socket w ip d = inr sock)
    /\ (tls_ok fp = true -> tls_error fp = "")
    /\ (tls_ok fp = false ->
        tls_alpn fp = "" /\ tls_subject_cn fp = "" /\ tls_issuer_cn fp = ""
        /\ tls_san fp = [] /\ tls_not_before fp = "" /\ tls_not_after fp = "")
    /\ (forall ip ips, getaddrinfo w d 443 = inr (ip :: ips) -> tls_peer_ip fp = ip)
    /\ ((forall ip ips, getaddrinfo w d 443 <> inr (ip :: ips)) ->
        tls_peer_ip fp = "" /\ tls_ok fp = false).
Proof.
  unfold fetch_tls_fingerprint.
  destruct (getaddrinfo w d 443) as [e|[|ip ips]] eqn:Hga;
    [| |destruct (socket_connect w ip 443 timeout_s) as [e|[]] eqn:Hconn;
        [|destruct (wrap_socket w ip d) as [e|sock] eqn:Hwrap]].
  all: eexists; (split; [reflexivity|]); simpl; repeat split.
  all: try discriminate; try reflexivity.
  all: try (intros (ip' & ips' & sock' & H1 & H2 & H3); congruence).
  all: try (intros ip' ips' H; congruence).
  all: try (exfalso; match goal with
                     | H : forall _ _, _ <> _ |- _ => now apply (H ip ips)
                     end).
  intros _. now exists ip, ips, sock.
Qed.

Lemma prefix_app_same (a b c : string) :
  String.prefix (a +:+ b) (a +:+ c) = String.prefix b c.
Proof.
  induction a as [|x a IH]; [reflexivity|].
  change (String.prefix (String x (a +:+ b)) (String x (a +:+ c)) = String.prefix b c).
  cbn [String.prefix]. destruct (Ascii.ascii_dec x x); [exact IH|contradiction].
Qed.

Lemma wss_url_prefix (d p : string) :
  String.prefix ("wss://" +:+ d +:+ "/") (wss_url d p) = true.
Proof.
  unfold wss_url. rewrite !prefix_app_same.
  destruct (String.prefix "/" p) eqn:Hp; [exact Hp|].
  change (String.prefix (String "/"%char EmptyString) (String "/"%char p) = true).
  cbn [String.prefix].
  destruct (Ascii.ascii_dec "/"%char "/"%char); [now destruct p|contradiction].
Qed.

(** X10. [probe_websockets] never raises and returns one probe for each
    path, in the order of the paths, failed or not.  The URL of a probe is
    [wss://] followed by the domain and the path, with a slash between them
    when the path does not start with one; a probe that succeeded carries no
    error and a probe that failed no subprotocol. *)
Theorem probe_websockets_one_per_path (w : World) (session : Session) (d : string)
    (paths : list string) (timeout_s : float) :
  exists probes,
    probe_websockets w session d paths timeout_s = inr probes
    /\ List.length probes = List.length paths
    /\ List.map ws_url probes = List.map (wss_url d) paths
    /\ Forall (fun pr =>
                 String.prefix ("wss://" +:+ d +:+ "/") (ws_url pr) = true
                 /\ (ws_ok pr = true -> ws_error pr = "")
                 /\ (ws_ok pr = false -> ws_negotiated_subprotocol pr = "")) probes
    /\ (forall i p, paths !! i = Some p ->
          exists pr, probes !! i = Some pr
            /\ (ws_ok pr = true <->
                exists proto, ws_connect w session (wss_url d p) timeout_s = inr proto)).
Proof.
  unfold probe_websockets. eexists. split; [reflexivity|].
  assert (Hone : forall p,
            ws_url (probe_one w session d timeout_s p) = wss_url d p
            /\ (ws_ok (probe_one w session d timeout_s p) = true ->
                ws_error (probe_one w session d timeout_s p) = "")
            /\ (ws_ok (probe_one w session d timeout_s p) = false ->
                ws_negotiated_subprotocol (probe_one w session d timeout_s p) = "")
            /\ (ws_ok (probe_one w session d timeout_s p) = true <->
                exists proto, ws_connect w session (wss_url d p) timeout_s = inr proto)).
  { intros p. unfold probe_one, wss_url.
    destruct (loop_time w _) as [start stop].
    destruct (ws_connect w session _ timeout_s) as [e|proto]; simpl; repeat split;
      try discriminate; try reflexivity.
    - intros (proto & Hp). discriminate Hp.
    - intros _. now exists proto. }
  split; [apply length_map|]. split.
  - rewrite List.map_map. apply List.map_ext. intros p. apply Hone.
  - split.
    + apply Forall_forall. intros pr Hin. apply list_elem_of_In, in_map_iff in Hin.
      destruct Hin as (p & <- & _). destruct (Hone p) as (Hurl & Hok & Hfail & _).
      split; [rewrite Hurl; apply wss_url_prefix|]. now split.
    + intros i p Hp. exists (probe_one w session d timeout_s p). split.
      * change (List.map ?f ?l) with (f <$> l). now rewrite list_lookup_fmap, Hp.
      * apply Hone.
Qed.

(* ===================================================================== *)
(** ** More on the aggregator and the summary                             *)
(* ===================================================================== *)

Lemma upsert_append_members (r : DomainScanResult)
    (g : list (string * list DomainScanResult)) :
  Permutation
    (List.concat (List.map snd (dict_upsert (signature r) [] (fun rs => rs ++ [r]) g)))
    (r :: List.concat (List.map snd g)).
Proof.
  induction g as [|[k v] g IH]; simpl; [reflexivity|].
  destruct (decide (k = signature r)); simpl.
  - rewrite <- app_assoc. simpl. symmetry. apply Permutation_middle.
  - rewrite IH. symmetry. apply Permutation_middle.
Qed.

Lemma groups_fold_members (results : list DomainScanResult) :
  forall g,
    Permutation
      (List.concat (List.map snd
         (List.fold_left
            (fun groups r => dict_upsert (signature r) [] (fun rs => rs ++ [r]) groups)
            results g)))
      (List.concat (List.map snd g) ++ results).
Proof.
  induction results as [|r results IH]; intros g; simpl.
  - now rewrite app_nil_r.
  - rewrite IH, upsert_append_members. simpl. apply Permutation_middle.
Qed.

Lemma concat_members_Permutation (l l' : list (string * list DomainScanResult)) :
  Permutation l l' ->
  Permutation (List.concat (List.map snd l)) (List.concat (List.map snd l')).
Proof.
  induction 1 as [|x l l' _ IH|x y l|l l' l'' _ IH1 _ IH2]; simpl.
  - reflexivity.
  - now rewrite IH.
  - rewrite !app_assoc. apply Permutation_app_tail, Permutation_app_comm.
  - now rewrite IH1.
Qed.

Lemma nonempty_groups_length (l : list (string * list DomainScanResult)) :
  Forall (fun g => snd g <> []) l ->
  (List.length l <= List.length (List.concat (List.map snd l)))%nat.
Proof.
  induction 1 as [|[k v] l Hv _ IH]; simpl; [lia|].
  rewrite length_app. destruct v; [contradiction|]. simpl in *. lia.
Qed.

(** X11. [group_by_signature] loses and repeats nothing: the members of
    the groups, taken together, are the results given, each one once; no group
    is empty, so there are at most as many groups as results, and none when
    there is no result. *)
Theorem group_by_signature_partitions (results : list DomainScanResult) :
  Permutation (List.concat (List.map snd (group_by_signature results))) results
  /\ Forall (fun g => snd g <> []) (group_by_signature results)
  /\ (List.length (group_by_signature results) <= List.length results)%nat
  /\ (group_by_signature results = [] <-> results = []).
Proof.
  assert (Hperm : Permutation (List.concat (List.map snd (group_by_signature results)))
                              results).
  { unfold group_by_signature.
    rewrite (concat_members_Permutation _ _ (sorted_reverse_Permutation _ _)).
    unfold groups_of. now rewrite groups_fold_members. }
  assert (Hne : Forall (fun g => snd g <> []) (group_by_signature results)).
  { apply Forall_forall. intros [s rs] Hin.
    now apply group_by_signature_elem_of in Hin as [_ Hrs]. }
  split; [exact Hperm|]. split; [exact Hne|]. split.
  - rewrite <- (Permutation_length Hperm). now apply nonempty_groups_length.
  - split.
    + intros Hnil. rewrite Hnil in Hperm. simpl in Hperm.
      now apply Permutation_nil in Hperm.
    + now intros ->.
Qed.

(* --------------------------------------------------------------------- *)
(** *** The counts of final hosts in the summary                          *)
(* --------------------------------------------------------------------- *)

Section Descending.
Context {A : Type} (key : A -> nat).

Lemma insert_reverse_descending (x : A) (l : list A) :
  StronglySorted (fun a b => (key b <= key a)%nat) l ->
  StronglySorted (fun a b => (key b <= key a)%nat) (insert_reverse key x l).
Proof.
  induction l as [|y l IH]; simpl; intros Hs; [repeat constructor|].
  apply StronglySorted_cons in Hs as [Hy Hs].
  destruct (key y <=? key x)%nat eqn:Hle.
  - apply Nat.leb_le in Hle. apply StronglySorted_cons. split.
    + apply Forall_cons. split; [exact Hle|].
      rewrite Forall_forall in Hy. rewrite Forall_forall. intros b Hb.
      specialize (Hy b Hb). simpl in Hy. lia.
    + apply StronglySorted_cons. now split.
  - apply Nat.leb_gt in Hle. apply StronglySorted_cons. split.
    + rewrite insert_reverse_Permutation. apply Forall_cons. split; [lia|assumption].
    + now apply IH.
Qed.

Lemma sorted_reverse_descending (l : list A) :
  StronglySorted (fun a b => (key b <= key a)%nat) (sorted_reverse key l).
Proof.
  induction l as [|x l IH]; simpl; [constructor|]. now apply insert_reverse_descending.
Qed.

End Descending.

(** What the dictionary [host] holds after the members [pre]. *)
Lemma final_host_counts_invariant (rs : list DomainScanResult) :
  forall pre host,
    NoDup (List.map fst host) ->
    (forall h, dict_get h host
               = if Str.truthy h && negb (bool_decide (with_final_host h pre = []))
                 then Some (List.length (with_final_host h pre)) else None) ->
    let host' :=
      List.fold_left
        (fun host r =>
           if Str.truthy (http_final_host (http r))
           then dict_upsert (http_final_host (http r)) 0%nat S host
           else host)
        rs host in
    NoDup (List.map fst host')
    /\ (forall h, dict_get h host'
                  = if Str.truthy h && negb (bool_decide (with_final_host h (pre ++ rs) = []))
                    then Some (List.length (with_final_host h (pre ++ rs))) else None).
Proof.
  induction rs as [|r rs IH]; intros pre host Hnd Hget; simpl.
  - rewrite app_nil_r. now split.
  - replace (pre ++ r :: rs) with ((pre ++ [r]) ++ rs) by (now rewrite <- app_assoc).
    assert (Hsnoc : forall h, with_final_host h (pre ++ [r])
                              = with_final_host h pre
                                ++ (if decide (http_final_host (http r) = h) then [r] else [])).
    { intros h. unfold with_final_host. rewrite List.filter_app. simpl.
      destruct (decide (http_final_host (http r) = h)) as [Heq|Hne].
      - now rewrite bool_decide_eq_true_2.
      - now rewrite bool_decide_eq_false_2. }
    destruct (Str.truthy (http_final_host (http r))) eqn:Hfh.
    + apply IH.
      * rewrite dict_keys_upsert.
        destruct (decide (http_final_host (http r) ∈ List.map fst host)); [assumption|].
        apply NoDup_app. repeat split; [assumption| |apply NoDup_singleton].
        intros x Hx Hx'. apply list_elem_of_singleton in Hx'. now subst.
      * intros h. rewrite dict_get_upsert, Hsnoc.
        destruct (decide (h = http_final_host (http r))) as [->|Hne].
        -- destruct (decide (http_final_host (http r) = http_final_host (http r)));
             [|congruence].
           rewrite Hget, Hfh. simpl.
           destruct (with_final_host (http_final_host (http r)) pre) as [|r0 l] eqn:Hpre; simpl.
           ++ reflexivity.
           ++ rewrite length_app. simpl. do 2 f_equal. lia.
        -- destruct (decide (http_final_host (http r) = h)); [congruence|].
           rewrite app_nil_r. apply Hget.
    + apply IH; [assumption|]. intros h. rewrite Hsnoc.
      destruct (decide (http_final_host (http r) = h)) as [<-|Hne].
      * rewrite Hget, Hfh. reflexivity.
      * rewrite app_nil_r. apply Hget.
Qed.

(** X12. The summary of a group counts its final hosts rightly: a host
    is listed with a count exactly when it is not empty and some member has
    it, and the count is the number of members that do; each host is listed
    once.  The line of final hosts shows at most five of them, none of which
    has fewer members than a host left out, and it is left out altogether
    exactly when no member has a final host. *)
Theorem summary_counts_final_hosts (rs : list DomainScanResult) :
  NoDup (List.map fst (final_host_counts rs))
  /\ (forall h n, In (h, n) (final_host_counts rs)
                  <-> h <> "" /\ n = List.length (with_final_host h rs) /\ (0 < n)%nat)
  /\ (List.length (top_hosts rs) <= 5)%nat
  /\ (forall shown, In shown (top_hosts rs) ->
        In shown (final_host_counts rs)
        /\ forall other, In other (final_host_counts rs) -> ~ In other (top_hosts rs) ->
             (snd other <= snd shown)%nat)
  /\ (forall sig,
        summary_block sig rs
        = [ "# " +:+ sig +:+ " (" +:+ Str.of_int (Z.of_nat (List.length rs))
            +:+ " domains)" +:+ newline ]
          ++ match final_host_counts rs with
             | [] => []
             | _ :: _ =>
                 [ "final_host: "
                   +:+ Str.join ", "
                         (List.map (fun kv => fst kv +:+ "("
                                              +:+ Str.of_int (Z.of_nat (snd kv)) +:+ ")")
                                   (top_hosts rs))
                   +:+ newline ]
             end
          ++ [ newline ] ++ List.map (fun r => "- " +:+ domain r +:+ newline) rs
          ++ [ newline ])
  /\ (final_host_counts rs = [] <-> Forall (fun r => http_final_host (http r) = "") rs).
Proof.
  destruct (final_host_counts_invariant rs [] []) as [Hnd Hget];
    [constructor|intros h; simpl; now rewrite andb_false_r|].
  simpl in Hget. fold (final_host_counts rs) in Hnd, Hget.
  assert (Hin : forall h n, In (h, n) (final_host_counts rs)
                  <-> h <> "" /\ n = List.length (with_final_host h rs) /\ (0 < n)%nat).
  { intros h n. rewrite <- list_elem_of_In, (dict_get_elem_of h n _ Hnd), Hget.
    destruct (Str.truthy h) eqn:Hh; simpl.
    - apply truthy_nonempty in Hh.
      destruct (with_final_host h rs) as [|r0 l]; simpl.
      + split; [discriminate|]. intros (_ & -> & Hpos). lia.
      + split; [intros [= <-]; repeat split; [assumption|lia]|now intros (_ & -> & _)].
    - split; [discriminate|]. intros (Hne & _). destruct h; [contradiction|discriminate]. }
  assert (Hsplit : sorted_reverse snd (final_host_counts rs)
                   = top_hosts rs ++ List.skipn 5 (sorted_reverse snd (final_host_counts rs))).
  { unfold top_hosts. symmetry. apply List.firstn_skipn. }
  split; [exact Hnd|]. split; [exact Hin|]. split; [apply List.firstn_le_length|].
  split; [|split].
  - intros shown Hshown. split.
    + apply list_elem_of_In. rewrite <- (sorted_reverse_Permutation snd).
      rewrite Hsplit. apply elem_of_app. left. now apply list_elem_of_In.
    + intros other Hother Hout.
      pose proof (sorted_reverse_descending snd (final_host_counts rs)) as Hsorted.
      rewrite Hsplit in Hsorted.
      apply (StronglySorted_app_1_elem_of _ _ _ shown other Hsorted);
        [now apply list_elem_of_In|].
      apply list_elem_of_In in Hother.
      rewrite <- (sorted_reverse_Permutation snd), Hsplit in Hother.
      apply elem_of_app in Hother as [Hother|Hother]; [|exact Hother].
      exfalso. apply Hout. now apply list_elem_of_In.
  - intros sig. reflexivity.
  - split.
    + intros Hnil. apply Forall_forall. intros r Hr.
      destruct (http_final_host (http r)) as [|c s] eqn:Hfh; [reflexivity|]. exfalso.
      assert (Hmem : In (String c s, List.length (with_final_host (String c s) rs))
                        (final_host_counts rs)).
      { apply Hin. split; [discriminate|]. split; [reflexivity|].
        assert (Hr' : In r (with_final_host (String c s) rs)).
        { unfold with_final_host. apply List.filter_In. split; [now apply list_elem_of_In|].
          now apply bool_decide_eq_true_2. }
        destruct (with_final_host (String c s) rs); [contradiction|simpl; lia]. }
      now rewrite Hnil in Hmem.
    + intros Hall. destruct (final_host_counts rs) as [|[h n] l] eqn:Hc; [reflexivity|].
      exfalso. destruct (proj1 (Hin h n) (or_introl eq_refl)) as (Hne & -> & Hpos).
      destruct (with_final_host h rs) as [|r0 l0] eqn:Hw; [simpl in Hpos; lia|].
      assert (Hr0 : In r0 (with_final_host h rs)) by (rewrite Hw; now left).
      unfold with_final_host in Hr0. apply List.filter_In in Hr0 as [Hr0 Heq].
      apply bool_decide_eq_true_1 in Heq. rewrite Forall_forall in Hall.
      apply list_elem_of_In in Hr0. specialize (Hall r0 Hr0). congruence.
Qed.

(* ===================================================================== *)
(** ** More on the scan command                                           *)
(* ===================================================================== *)

Lemma for_each_Forall2 {A B} (f : A -> result B) (l : list A) bs :
  for_each f l = inr bs -> Forall2 (fun a b => f a = inr b) l bs.
Proof.
  revert bs. induction l as [|a l IH]; simpl; intros bs.
  - intros [= <-]. constructor.
  - destruct (f a) as [e|b] eqn:Hfa; simpl; [discriminate|].
    destruct (for_each f l) as [e|bs']; simpl; [discriminate|].
    intros [= <-]. constructor; [exact Hfa|now apply IH].
Qed.

Lemma map_snd_combine_seq {A} (l : list A) (start : nat) :
  List.map snd (List.combine (List.seq start (List.length l)) l) = l.
Proof.
  revert start. induction l as [|x l IH]; intros start; simpl; [reflexivity|].
  now rewrite IH.
Qed.

(** [as_completed] only changes the order. *)
Lemma as_completed_Permutation {A} (rt : Runtime) (l : list A) :
  Permutation (as_completed rt l) l.
Proof.
  unfold as_completed.
  transitivity (List.map snd (List.combine (List.seq 0 (List.length l)) l));
    [|now rewrite map_snd_combine_seq].
  apply Permutation_map.
  rewrite <- Permutation_rev, sorted_reverse_Permutation. symmetry. apply Permutation_rev.
Qed.

Lemma bind_returns {A B} (c : result A) (k : A -> result B) (b : B) :
  (x ← c; k x) = inr b -> exists a, c = inr a /\ k a = inr b.
Proof.
  destruct c as [e|a]; [discriminate|]. intros Hk. now exists a.
Qed.

(** A run that came back either found no domain, or scanned the whole list
    and kept the results in the order of completion. *)
Lemma scan_action_inv (w : World) (rt : Runtime) (args : Namespace) (run : Run) :
  scan_action w rt args = inr (Done run) ->
  exists domains,
    read_domains w (url_checks rt) (domains_file args) = inr domains
    /\ ((domains = [] /\ run_status run = 2%Z /\ run_results run = [])
        \/ (domains <> [] /\ run_status run = 0%Z
            /\ run_grouped run = group_by_signature (run_results run)
            /\ exists done,
                 for_each
                   (fun d => scan_domain w {| session_user_agent := user_agent args |} d
                               (dns_timeout args) (http_timeout args) (tls_timeout args)
                               (ws_timeout args) (paths_probed args))
                   domains = inr done
                 /\ run_results run = as_completed rt done)).
Proof.
  unfold scan_action. intros Hrun.
  apply bind_returns in Hrun as (domains & Hread & Hrun).
  exists domains. split; [exact Hread|].
  destruct domains as [|d0 ds].
  - left. injection Hrun as <-. repeat split.
  - right. split; [discriminate|]. cbv zeta in Hrun. fold (paths_probed args) in Hrun.
    apply bind_returns in Hrun as ([|v] & _ & Hrun); [discriminate|].
    apply bind_returns in Hrun as (done & Hdone & Hrun).
    apply bind_returns in Hrun as ([] & _ & Hrun).
    apply bind_returns in Hrun as ([] & _ & Hrun).
    injection Hrun as <-. cbn [run_status run_grouped run_results].
    split; [reflexivity|]. split; [reflexivity|]. now exists done.
Qed.

(** X13. A scan that completes has scanned every domain of the list
    exactly once, whatever the order in which the scans finished: the domains
    of the results are those of the list, reordered.  Each result carries the
    signature of its own fields and one WebSocket probe for each path probed,
    none without [--ws], four with [--ws] alone; and the groups are those of
    the results. *)
Theorem scan_action_scans_each_domain_once (w : World) (rt : Runtime) (args : Namespace)
    (domains : list string) (run : Run) :
  read_domains w (url_checks rt) (domains_file args) = inr domains ->
  domains <> [] ->
  scan_action w rt args = inr (Done run) ->
  Permutation (List.map domain (run_results run)) domains
  /\ run_grouped run = group_by_signature (run_results run)
  /\ Forall (fun r =>
               signature r = compute_signature (domain r) (cname_chain r) (http r) (tls r)
               /\ List.length (websockets r) = List.length (paths_probed args))
            (run_results run)
  /\ (ws args = false -> paths_probed args = [])
  /\ (ws args = true -> ws_paths args = [] -> List.length (paths_probed args) = 4%nat).
Proof.
  intros Hread Hne Hrun.
  destruct (scan_action_inv w rt args run Hrun)
    as (domains' & Hread' & [(-> & _)|(_ & _ & Hgrouped & done & Hdone & Hres)]);
    [congruence|].
  assert (domains' = domains) as -> by congruence.
  apply for_each_Forall2 in Hdone.
  assert (Heach : Forall2 (fun d r =>
                    domain r = d
                    /\ signature r = compute_signature (domain r) (cname_chain r) (http r) (tls r)
                    /\ List.length (websockets r) = List.length (paths_probed args))
                    domains done).
  { eapply Forall2_impl; [exact Hdone|]. intros d r Hscan. cbv beta in Hscan.
    destruct (scan_domain_returns w {| session_user_agent := user_agent args |} d
                (dns_timeout args) (http_timeout args) (tls_timeout args) (ws_timeout args)
                (paths_probed args)) as (h & t & _ & _ & Heq).
    rewrite Heq in Hscan. injection Hscan as <-. simpl. repeat split.
    apply length_map. }
  rewrite Hres. split; [|split; [rewrite <- Hres; exact Hgrouped|split; [|split]]].
  - rewrite (Permutation_map domain (as_completed_Permutation rt done)).
    assert (Hdom : List.map domain done = domains).
    { clear -Heach. induction Heach as [|d r l l' (Hd & _) _ IH]; simpl; [reflexivity|].
      now rewrite Hd, IH. }
    now rewrite Hdom.
  - rewrite (as_completed_Permutation rt done).
    clear -Heach. induction Heach as [|d r l l' (_ & Hr) _ IH]; constructor; assumption.
  - unfold paths_probed. now intros ->.
  - unfold paths_probed. now intros -> ->.
Qed.

(** Two domains scanned with [--ws]. *)
Lemma scan_action_scans_each_domain_once_witness :
  exists run,
    scan_action (Samples.world [] Samples.get_ok true ["b.example"; "a.example"])
      {| url_checks := url_checks Samples.runtime; json_dumps := json_dumps Samples.runtime;
         finish_time := fun i => (5 - i)%nat |}
      {| domains_file := "domains.txt"; concurrency := 50;
         dns_timeout := 2.5%float; http_timeout := 8%float;
         tls_timeout := 5%float; ws_timeout := 6%float;
         ws := true; ws_paths := []; jsonl := ""; summary := "";
         top := 25; show_domains := 0; quiet := false; progress := 0;
         user_agent := "whitelists-research-v2/0.1" |}
    = inr (Done run)
    /\ List.map domain (run_results run) = ["a.example"; "b.example"]
    /\ Permutation (List.map domain (run_results run)) ["b.example"; "a.example"].
Proof.
  eexists. split; [vm_compute; reflexivity|]. split; [reflexivity|].
  eapply (scan_action_scans_each_domain_once
            (Samples.world [] Samples.get_ok true ["b.example"; "a.example"])
            {| url_checks := url_checks Samples.runtime; json_dumps := json_dumps Samples.runtime;
               finish_time := fun i => (5 - i)%nat |}
            {| domains_file := "domains.txt"; concurrency := 50;
               dns_timeout := 2.5%float; http_timeout := 8%float;
               tls_timeout := 5%float; ws_timeout := 6%float;
               ws := true; ws_paths := []; jsonl := ""; summary := "";
               top := 25; show_domains := 0; quiet := false; progress := 0;
               user_agent := "whitelists-research-v2/0.1" |}
            ["b.example"; "a.example"]).
  - reflexivity.
  - discriminate.
  - vm_compute. reflexivity.
Defined.


(* ===================================================================== *)
(** ** More on the tasks under the semaphore                              *)
(* ===================================================================== *)

Lemma orch_init_lookup (value : nat) (domains : list string) (i : nat) (t : task) :
  tasks (orch_init value domains) !! i = Some t -> t = Waiting.
Proof.
  unfold orch_init. simpl. revert i.
  induction domains as [|d ds IH]; intros [|i]; simpl; try discriminate.
  - now intros [= <-].
  - apply IH.
Qed.

Lemma fire_nothing_without_permit (ws_enabled : bool) (domains : list string) (ev : event) :
  fire ws_enabled ev (orch_init 0 domains) = None.
Proof.
  unfold fire. destruct ev as [i|i];
    destruct (tasks (orch_init 0 domains) !! i) as [t|] eqn:Hi; try reflexivity;
    apply orch_init_lookup in Hi; subst t; reflexivity.
Qed.

(** X15. With [--concurrency 0] the semaphore never lets a task in: no
    step of the loop is enabled after the tasks are created, so the scan
    never comes back and the program never ends.  A negative value is
    refused by [asyncio.Semaphore], which ends the program with a
    [ValueError] before any scan. *)
Theorem concurrency_zero_never_scans (w : World) (rt : Runtime) (args : Namespace)
    (domains : list string) (ws_enabled : bool) :
  read_domains w (url_checks rt) (domains_file args) = inr domains ->
  domains <> [] ->
  (concurrency args = 0%Z ->
     scan_action w rt args = inr Hangs
     /\ main w rt (Some args) = Never
     /\ (forall schedule o,
           run ws_enabled schedule (orch_init 0 domains) = Some o -> schedule = []))
  /\ ((concurrency args < 0)%Z ->
      exists msg,
        scan_action w rt args = inl (Raise_ ValueError msg)
        /\ main w rt (Some args) = Traceback (Raise_ ValueError msg)).
Proof.
  intros Hread Hne. destruct domains as [|d0 ds]; [contradiction|].
  assert (Hact : scan_action w rt args
                 = match Semaphore (concurrency args) with
                   | inl e => inl e
                   | inr O => inr Hangs
                   | inr (S _) => scan_action w rt args
                   end).
  { unfold scan_action. rewrite Hread.
    destruct (Semaphore (concurrency args)) as [e|[|v]]; reflexivity. }
  split.
  - intros Hzero.
    assert (Hhangs : scan_action w rt args = inr Hangs).
    { rewrite Hact. unfold Semaphore. now rewrite Hzero. }
    split; [exact Hhangs|]. split; [unfold main; now rewrite Hhangs|].
    intros [|ev rest] o; [reflexivity|]. simpl.
    now rewrite fire_nothing_without_permit.
  - intros Hneg. eexists.
    assert (Hraises : Semaphore (concurrency args)
                      = inl (Raise_ ValueError "Semaphore initial value must be >= 0")).
    { unfold Semaphore. destruct (concurrency args <? 0)%Z eqn:Hlt; [reflexivity|lia]. }
    assert (Hact' : scan_action w rt args
                    = inl (Raise_ ValueError "Semaphore initial value must be >= 0")).
    { rewrite Hact. now rewrite Hraises. }
    split; [exact Hact'|]. unfold main. now rewrite Hact'.
Qed.

(** One domain, [--concurrency 0]. *)
Lemma concurrency_zero_never_scans_witness :
  scan_action (Samples.world [] Samples.get_ok true ["a.example"]) Samples.runtime
    {| domains_file := "domains.txt"; concurrency := 0;
       dns_timeout := 2.5%float; http_timeout := 8%float;
       tls_timeout := 5%float; ws_timeout := 6%float;
       ws := false; ws_paths := []; jsonl := ""; summary := "";
       top := 25; show_domains := 0; quiet := false; progress := 0;
       user_agent := "whitelists-research-v2/0.1" |}
  = inr Hangs.
Proof.
  apply (concurrency_zero_never_scans
           (Samples.world [] Samples.get_ok true ["a.example"]) Samples.runtime
           {| domains_file := "domains.txt"; concurrency := 0;
              dns_timeout := 2.5%float; http_timeout := 8%float;
              tls_timeout := 5%float; ws_timeout := 6%float;
              ws := false; ws_paths := []; jsonl := ""; summary := "";
              top := 25; show_domains := 0; quiet := false; progress := 0;
              user_agent := "whitelists-research-v2/0.1" |}
           ["a.example"] false).
  - reflexivity.
  - discriminate.
  - reflexivity.
Defined.

Lemma rank_insert (ts : list task) (i : nat) (t t' : task) :
  ts !! i = Some t ->
  (list_sum (List.map rank (<[i := t']> ts)) + rank t
   = list_sum (List.map rank ts) + rank t')%nat.
Proof.
  revert i. induction ts as [|x ts IH]; intros i Hi; [discriminate|].
  destruct i as [|i]; simpl in *.
  - injection Hi as ->. lia.
  - specialize (IH i Hi). lia.
Qed.

Lemma rank_bound (ts : list task) :
  (list_sum (List.map rank ts) <= 5 * List.length ts)%nat.
Proof.
  induction ts as [|t ts IH]; simpl; [lia|].
  assert (rank t <= 5)%nat by (destruct t as [|[]|]; simpl; lia). lia.
Qed.

(** A step takes one task forward and leaves the others as they are. *)
Lemma fire_advances (ws_enabled : bool) (ev : event) (o o' : orch) :
  fire ws_enabled ev o = Some o' ->
  List.length (tasks o') = List.length (tasks o)
  /\ (S (steps_taken o) <= steps_taken o')%nat
  /\ (forall i, tasks o !! i = Some Finished -> tasks o' !! i = Some Finished).
Proof.
  unfold fire, steps_taken. destruct ev as [i|i].
  - destruct (tasks o !! i) as [[| |]|] eqn:Hi; try discriminate.
    destruct (sem_value o) as [|v]; [discriminate|]. intros [= <-]. simpl.
    split; [apply length_insert|]. split.
    + pose proof (rank_insert (tasks o) i Waiting (Running InDns) Hi) as H.
      simpl in H. lia.
    + intros j Hj. destruct (decide (i = j)) as [->|Hij]; [congruence|].
      now rewrite list_lookup_insert_ne.
  - destruct (tasks o !! i) as [[|p|]|] eqn:Hi; try discriminate.
    destruct (next_phase ws_enabled p) as [p'|] eqn:Hnext; intros [= <-]; simpl;
      (split; [apply length_insert|]); split.
    + pose proof (rank_insert (tasks o) i (Running p) (Running p') Hi) as H.
      destruct p, ws_enabled; simpl in Hnext; try discriminate;
        injection Hnext as <-; simpl in H; lia.
    + intros j Hj. destruct (decide (i = j)) as [->|Hij]; [congruence|].
      now rewrite list_lookup_insert_ne.
    + pose proof (rank_insert (tasks o) i (Running p) Finished Hi) as H.
      destruct p, ws_enabled; simpl in Hnext; try discriminate; simpl in H; lia.
    + intros j Hj. destruct (decide (i = j)) as [->|Hij]; [congruence|].
      now rewrite list_lookup_insert_ne.
Qed.

(** X16. A task only moves forward: whatever the schedule, each of its
    steps takes one task closer to the end of its body, a task that has
    finished stays finished, and no task appears or disappears.  A task
    passes the semaphore once and is resumed from at most four probes, so a
    schedule has at most five steps for each task. *)
Theorem tasks_only_advance (ws_enabled : bool) (schedule : list event) (o o' : orch) :
  run ws_enabled schedule o = Some o' ->
  List.length (tasks o') = List.length (tasks o)
  /\ (steps_taken o + List.length schedule <= steps_taken o')%nat
  /\ (List.length schedule <= 5 * List.length (tasks o))%nat
  /\ (forall i, tasks o !! i = Some Finished -> tasks o' !! i = Some Finished).
Proof.
  intros Hrun.
  assert (Hmain : List.length (tasks o') = List.length (tasks o)
                  /\ (steps_taken o + List.length schedule <= steps_taken o')%nat
                  /\ (forall i, tasks o !! i = Some Finished -> tasks o' !! i = Some Finished)).
  { revert o Hrun. induction schedule as [|ev rest IH]; simpl; intros o.
    - intros [= <-]. repeat split; [lia|auto].
    - destruct (fire ws_enabled ev o) as [o1|] eqn:Hfire; [|discriminate].
      intros Hrun. destruct (IH o1 Hrun) as (Hlen & Hsteps & Hdone).
      destruct (fire_advances _ _ _ _ Hfire) as (Hlen1 & Hsteps1 & Hdone1).
      split; [congruence|]. split; [lia|]. intros i Hi. apply Hdone, Hdone1, Hi. }
  destruct Hmain as (Hlen & Hsteps & Hdone).
  split; [exact Hlen|]. split; [exact Hsteps|]. split; [|exact Hdone].
  pose proof (rank_bound (tasks o')) as Hbound. fold (steps_taken o') in Hbound.
  rewrite Hlen in Hbound. lia.
Qed.

(** Two tasks, one permit: the second enters when the first has finished. *)
Lemma tasks_only_advance_witness :
  exists o',
    run false [Enter 0; Resume 0; Resume 0; Resume 0; Enter 1]%nat
        (orch_init 1 ["a.example"; "b.example"]) = Some o'
    /\ tasks o' = [Finished; Running InDns]
    /\ (steps_taken (orch_init 1 ["a.example"; "b.example"]) + 5 <= steps_taken o')%nat.
Proof.
  eexists. split; [reflexivity|]. split; [reflexivity|].
  apply (tasks_only_advance false [Enter 0; Resume 0; Resume 0; Resume 0; Enter 1]%nat
           (orch_init 1 ["a.example"; "b.example"])).
  reflexivity.
Defined.

Lemma run_app (ws_enabled : bool) (s1 s2 : list event) (o : orch) :
  run ws_enabled (s1 ++ s2) o
  = match run ws_enabled s1 o with
    | Some o1 => run ws_enabled s2 o1
    | None => None
    end.
Proof.
  revert o. induction s1 as [|ev s1 IH]; simpl; intros o; [reflexivity|].
  destruct (fire ws_enabled ev o); [apply IH|reflexivity].
Qed.

Lemma lookup_middle (pre suf : list task) (t : task) :
  (pre ++ t :: suf) !! List.length pre = Some t.
Proof. induction pre as [|x pre IH]; simpl; [reflexivity|exact IH]. Qed.

Lemma insert_middle (pre suf : list task) (t t' : task) :
  <[List.length pre := t']> (pre ++ t :: suf) = pre ++ t' :: suf.
Proof. induction pre as [|x pre IH]; simpl; [reflexivity|now rewrite IH]. Qed.

(** One task from the semaphore to the end of its body, the others idle. *)
Lemma run_one_task (ws_enabled : bool) (v : nat) (pre suf : list task) :
  run ws_enabled
      (Enter (List.length pre) :: List.repeat (Resume (List.length pre)) (awaits ws_enabled))
      {| sem_value := S v; tasks := pre ++ Waiting :: suf |}
  = Some {| sem_value := S v; tasks := pre ++ Finished :: suf |}.
Proof.
  unfold awaits.
  destruct ws_enabled; cbn [run List.repeat fire tasks sem_value];
    repeat (rewrite ?lookup_middle, ?insert_middle;
            cbn [run fire tasks sem_value next_phase]);
    reflexivity.
Qed.

Lemma run_one_by_one (ws_enabled : bool) (v : nat) (domains : list string) :
  forall pre : list task,
    run ws_enabled (one_by_one ws_enabled (List.length pre) (List.length domains))
        {| sem_value := S v; tasks := pre ++ List.map (fun _ => Waiting) domains |}
    = Some {| sem_value := S v; tasks := pre ++ List.map (fun _ => Finished) domains |}.
Proof.
  unfold one_by_one.
  induction domains as [|d ds IH]; intros pre; [reflexivity|].
  cbn [List.length List.seq List.flat_map List.map].
  rewrite run_app, run_one_task.
  specialize (IH (pre ++ [Finished])).
  rewrite length_app, Nat.add_1_r, <- !app_assoc in IH. exact IH.
Qed.

Lemma in_flight_finished (ts : list task) :
  Forall (fun t => t = Finished) ts -> List.length (List.filter is_running ts) = 0%nat.
Proof.
  induction 1 as [|t ts -> _ IH]; simpl; [reflexivity|exact IH].
Qed.

(** X17. With at least one permit every scan can run to its end: taking
    the tasks one after the other finishes them all, and whenever all tasks
    have finished, under whatever schedule, the semaphore is back at its
    initial value: every permit taken has been given back. *)
Theorem every_scan_can_finish (ws_enabled : bool) (v : nat) (domains : list string) :
  run ws_enabled (one_by_one ws_enabled 0 (List.length domains)) (orch_init (S v) domains)
  = Some {| sem_value := S v; tasks := List.map (fun _ => Finished) domains |}
  /\ (forall value schedule o,
        run ws_enabled schedule (orch_init value domains) = Some o ->
        Forall (fun t => t = Finished) (tasks o) ->
        sem_value o = value).
Proof.
  split.
  - exact (run_one_by_one ws_enabled v domains []).
  - intros value schedule o Hrun Hall. apply run_balance in Hrun.
    rewrite in_flight_init in Hrun. unfold in_flight in Hrun.
    rewrite (in_flight_finished _ Hall) in Hrun. simpl in Hrun. lia.
Qed.
